(** * iter-ts: lazy generator pipelines

    A shallow embedding of the [Iter] class of [src/index.ts] (and of the
    methods that only the compiled [dist] build carries: [fold],
    [enumerate], [forEach]).

    A JavaScript generator object is modelled as a transition system: the
    local variables of the generator body form its state, and one
    [resume] runs one iteration of the body's [for] loop.  Such an
    iteration either reaches a [yield], ends the body, throws, or falls
    through to the next iteration without yielding ([Skip]).  Side
    effects of callbacks act on an explicit world [W] that is threaded
    through every step, so that the order and the number of pulls can be
    observed.  Terminal operations drive a generator with a fuel bound;
    running out of fuel for every bound is divergence. *)

From Stdlib Require Import String.
From Stdlib Require Import List ZArith Lia Bool Permutation.
Import ListNotations.

#[local] Set Warnings "-register-all".

(** ** Host values *)

(** A JavaScript [number] that holds an integer or an infinity (no NaN,
    no fractions).  [Fin z] is the double whose value is [z]; every
    integer up to [2^53] in magnitude is one, beyond that only the
    multiples of the spacing [ulp]. *)
Inductive number : Type :=
| Fin (z : Z)
| PosInf
| NegInf.

(** [a < b] *)
Definition num_ltb (a b : number) : bool :=
  match a, b with
  | Fin x, Fin y => (x <? y)%Z
  | Fin _, PosInf => true
  | NegInf, Fin _ => true
  | NegInf, PosInf => true
  | _, _ => false
  end.

(** [a > b] *)
Definition num_gtb (a b : number) : bool := num_ltb b a.

(** [a >= b]; without NaN this is the negation of [a < b]. *)
Definition num_geb (a b : number) : bool := negb (num_ltb a b).

(** The spacing of the doubles around the integer [z]: 1 up to [2^53],
    doubled with every further power of two (53 significant bits). *)
Definition ulp (z : Z) : Z := 2 ^ Z.max 0 (Z.log2 (Z.abs z) - 52).

(** IEEE 754 round-to-nearest, ties to the even significand: the double
    that an arithmetic result of exact value [z] becomes. *)
Definition round_double (z : Z) : Z :=
  let u := ulp z in
  let q := (z / u)%Z in
  let r := (z mod u)%Z in
  if (2 * r <? u)%Z then (q * u)%Z
  else if (u <? 2 * r)%Z then ((q + 1) * u)%Z
  else if Z.even q then (q * u)%Z
  else ((q + 1) * u)%Z.

(** [i++] on a number the caller supplied: the sum [i + 1] is rounded
    to a double, so from [2^53] on it may leave [i] where it is. *)
Definition num_incr (a : number) : number :=
  match a with
  | Fin x => Fin (round_double (x + 1))
  | _ => a
  end.

(** [i--], rounded likewise. *)
Definition num_decr (a : number) : number :=
  match a with
  | Fin x => Fin (round_double (x - 1))
  | _ => a
  end.

(** [i++] on a generator's own counter, declared [let i = 0] and moved
    only by this increment: it holds the number of items counted so
    far, which doubles represent exactly up to [2^53]; the model counts
    on exactly ([count_incr_is_num_incr] below). *)
Definition count_incr (a : number) : number :=
  match a with
  | Fin x => Fin (x + 1)
  | _ => a
  end.

(** Untyped JavaScript values, as far as the structured-clone algorithm
    distinguishes them. *)
Inductive Value : Type :=
| VUndefined
| VNull
| VBool (b : bool)
| VNumber (n : number)
| VString (s : string)
| VSymbol (id : nat)
| VFunction (id : nat)
| VArray (items : list Value).

Inductive Error : Type :=
| DataCloneError.

(** The host's [structuredClone]: [None] stands for the [DataCloneError]
    it throws.  Object identity is not modelled, so the clone of a
    cloneable value is the value itself. *)
Class StructuredClone (A : Type) := structuredClone : A -> option A.

Fixpoint clone_all {A : Type} (clone : A -> option A) (items : list A)
  : option (list A) :=
  match items with
  | [] => Some []
  | x :: rest =>
      match clone x with
      | None => None
      | Some x' =>
          match clone_all clone rest with
          | None => None
          | Some rest' => Some (x' :: rest')
          end
      end
  end.

Fixpoint clone_value (v : Value) : option Value :=
  match v with
  | VSymbol _ => None
  | VFunction _ => None
  | VArray items =>
      option_map VArray
        ((fix go (l : list Value) : option (list Value) :=
            match l with
            | [] => Some []
            | x :: rest =>
                match clone_value x with
                | None => None
                | Some x' =>
                    match go rest with
                    | None => None
                    | Some rest' => Some (x' :: rest')
                    end
                end
            end) items)
  | _ => Some v
  end.

#[export] Instance clone_Z : StructuredClone Z := fun z => Some z.
#[export] Instance clone_number : StructuredClone number := fun n => Some n.
#[export] Instance clone_bool : StructuredClone bool := fun b => Some b.
#[export] Instance clone_string : StructuredClone string := fun s => Some s.
#[export] Instance clone_Value : StructuredClone Value := clone_value.
#[export] Instance clone_array {A : Type} `{StructuredClone A}
  : StructuredClone (list A) := clone_all structuredClone.

(** [cloneable x]: the structured clone of [x] exists (and is [x]). *)
Definition cloneable {A : Type} `{StructuredClone A} (x : A) : Prop :=
  structuredClone x = Some x.

(** ** Generators *)

(** What one iteration of a generator body does. *)
Inductive Step (A S : Type) : Type :=
| Done
| Skip (s : S)
| Yield (item : A) (s : S)
| Throw (e : Error).

Arguments Done {A S}.
Arguments Skip {A S} s.
Arguments Yield {A S} item s.
Arguments Throw {A S} e.

Module Iter.

Section Model.

Context {W : Type}.

(** A generator object: its local variables ([cursor] holds their
    values when the object is created) and its body. *)
Record Generator (A : Type) : Type := mkGenerator {
  state : Type;
  cursor : state;
  resume : state -> W -> Step A state * W
}.

Arguments state {A} _.
Arguments cursor {A} _.
Arguments resume {A} _ _ _.
Arguments mkGenerator {A} _ _ _.

(** [class Iter<A> { private constructor(private factory: () => Generator<A>) }] *)
Record Iter (A : Type) : Type := mkIter {
  factory : unit -> Generator A
}.

Arguments factory {A} _ _.
Arguments mkIter {A} _.

(** The result of driving a generator: a value and the world it leaves,
    an exception, or no answer within the fuel. *)
Inductive Outcome (X : Type) : Type :=
| Ret (x : X) (w : W)
| Raise (e : Error) (w : W)
| OutOfFuel.

Arguments Ret {X} x w.
Arguments Raise {X} e w.
Arguments OutOfFuel {X}.

Definition omap {X Y : Type} (f : X -> Y) (o : Outcome X) : Outcome Y :=
  match o with
  | Ret x w => Ret (f x) w
  | Raise e w => Raise e w
  | OutOfFuel => OutOfFuel
  end.

(** *** Combinators *)

Definition map {A B : Type} (predicate : A -> B) (context : Iter A) : Iter B :=
  mkIter (fun _ =>
    let src := factory context tt in
    mkGenerator (state src) (cursor src)
      (fun s w =>
         match resume src s w with
         | (Done, w') => (Done, w')
         | (Skip s', w') => (Skip s', w')
         | (Yield item s', w') => (Yield (predicate item) s', w')
         | (Throw e, w') => (Throw e, w')
         end)).

Definition filter {A : Type} (predicate : A -> bool) (context : Iter A) : Iter A :=
  mkIter (fun _ =>
    let src := factory context tt in
    mkGenerator (state src) (cursor src)
      (fun s w =>
         match resume src s w with
         | (Done, w') => (Done, w')
         | (Skip s', w') => (Skip s', w')
         | (Yield item s', w') =>
             if predicate item then (Yield item s', w') else (Skip s', w')
         | (Throw e, w') => (Throw e, w')
         end)).

(** [let i = 0] is the generator's own variable; the item is pulled from
    the parent before [i >= count] is tested. *)
Definition take {A : Type} (count : number) (context : Iter A) : Iter A :=
  mkIter (fun _ =>
    let src := factory context tt in
    mkGenerator (number * state src)%type (Fin 0, cursor src)
      (fun '(i, s) w =>
         match resume src s w with
         | (Done, w') => (Done, w')
         | (Skip s', w') => (Skip (i, s'), w')
         | (Yield item s', w') =>
             if num_geb i count then (Done, w')
             else (Yield item (count_incr i, s'), w')
         | (Throw e, w') => (Throw e, w')
         end)).

(** [arr.splice(0, 1)] *)
Definition splice_0_1 {A : Type} (arr : list A) : list A := skipn 1 arr.

(** The pair is yielded as the two-element array it is at run time.  The
    [splice] that follows the [yield] touches only the generator's own
    [arr], so it is folded into the same step. *)
Definition pairwise {A : Type} `{StructuredClone A} (context : Iter A)
  : Iter (list A) :=
  mkIter (fun _ =>
    let src := factory context tt in
    mkGenerator (list A * state src)%type ([], cursor src)
      (fun '(arr, s) w =>
         match resume src s w with
         | (Done, w') => (Done, w')
         | (Skip s', w') => (Skip (arr, s'), w')
         | (Yield item s', w') =>
             let arr := arr ++ [item] in
             if Nat.eqb (length arr) 2 then
               match structuredClone arr with
               | Some snapshot => (Yield snapshot (splice_0_1 arr, s'), w')
               | None => (Throw DataCloneError, w')
               end
             else (Skip (arr, s'), w')
         | (Throw e, w') => (Throw e, w')
         end)).

Definition enumerate {A : Type} (context : Iter A) : Iter (number * A) :=
  mkIter (fun _ =>
    let src := factory context tt in
    mkGenerator (number * state src)%type (Fin 0, cursor src)
      (fun '(i, s) w =>
         match resume src s w with
         | (Done, w') => (Done, w')
         | (Skip s', w') => (Skip (i, s'), w')
         | (Yield item s', w') => (Yield (i, item) (count_incr i, s'), w')
         | (Throw e, w') => (Throw e, w')
         end)).

Definition scan {A B : Type} (scanner : B -> A -> B) (initial : B)
  (context : Iter A) : Iter B :=
  mkIter (fun _ =>
    let src := factory context tt in
    mkGenerator (B * state src)%type (initial, cursor src)
      (fun '(val, s) w =>
         match resume src s w with
         | (Done, w') => (Done, w')
         | (Skip s', w') => (Skip (val, s'), w')
         | (Yield item s', w') =>
             let val := scanner val item in
             (Yield val (val, s'), w')
         | (Throw e, w') => (Throw e, w')
         end)).

Definition partition {A : Type} (partitionFn : A -> bool) (context : Iter A)
  : Iter A * Iter A :=
  let truthy := fun _ : unit =>
    let src := factory context tt in
    mkGenerator (state src) (cursor src)
      (fun s w =>
         match resume src s w with
         | (Done, w') => (Done, w')
         | (Skip s', w') => (Skip s', w')
         | (Yield item s', w') =>
             if partitionFn item then (Yield item s', w') else (Skip s', w')
         | (Throw e, w') => (Throw e, w')
         end) in
  let falsy := fun _ : unit =>
    let src := factory context tt in
    mkGenerator (state src) (cursor src)
      (fun s w =>
         match resume src s w with
         | (Done, w') => (Done, w')
         | (Skip s', w') => (Skip s', w')
         | (Yield item s', w') =>
             if negb (partitionFn item) then (Yield item s', w')
             else (Skip s', w')
         | (Throw e, w') => (Throw e, w')
         end) in
  (mkIter truthy, mkIter falsy).

(** The inspector returns nothing; what it does is its effect on the
    world. *)
Definition inspect {A : Type} (inspector : A -> W -> W) (context : Iter A)
  : Iter A :=
  mkIter (fun _ =>
    let src := factory context tt in
    mkGenerator (state src) (cursor src)
      (fun s w =>
         match resume src s w with
         | (Done, w') => (Done, w')
         | (Skip s', w') => (Skip s', w')
         | (Yield item s', w') => (Yield item s', inspector item w')
         | (Throw e, w') => (Throw e, w')
         end)).

(** *** Construction *)

(** Array indices are naturals; [source[i]] exists exactly when
    [i < source.length]. *)
Definition fromArray {A : Type} (source : list A) : Iter A :=
  mkIter (fun _ =>
    mkGenerator nat 0
      (fun i w =>
         if Nat.ltb i (length source) then
           match nth_error source i with
           | Some item => (Yield item (S i), w)
           | None => (Done, w)
           end
         else (Done, w))).

(** [start] and [end] are never assigned, so [isAsc] has the same value
    whenever it is read. *)
Definition range (start end_ : number) : Iter number :=
  mkIter (fun _ =>
    mkGenerator number start
      (fun i w =>
         let isAsc := num_ltb start end_ in
         if isAsc then
           if num_ltb i end_ then (Yield i (num_incr i), w) else (Done, w)
         else
           if num_gtb i end_ then (Yield i (num_decr i), w) else (Done, w))).

(** The iterable is what its [[Symbol.iterator]()] returns on each call. *)
Definition fromIterable {A : Type} (source : unit -> Generator A) : Iter A :=
  mkIter (fun _ =>
    let src := source tt in
    mkGenerator (state src) (cursor src)
      (fun s w =>
         match resume src s w with
         | (Done, w') => (Done, w')
         | (Skip s', w') => (Skip s', w')
         | (Yield item s', w') => (Yield item s', w')
         | (Throw e, w') => (Throw e, w')
         end)).

Definition fromGenerator {A : Type} (factory : unit -> Generator A) : Iter A :=
  mkIter factory.

Definition repeat {A : Type} (item : A) (repetitions : number) : Iter A :=
  mkIter (fun _ =>
    mkGenerator number (Fin 0)
      (fun i w =>
         if num_ltb i repetitions then (Yield item (count_incr i), w)
         else (Done, w))).

(** *** Terminal operations *)

(** [[...generator]] *)
Fixpoint spread {A : Type} (g : Generator A) (fuel : nat) (s : state g) (w : W)
  : Outcome (list A) :=
  match fuel with
  | O => OutOfFuel
  | S fuel' =>
      match resume g s w with
      | (Done, w') => Ret [] w'
      | (Skip s', w') => spread g fuel' s' w'
      | (Yield item s', w') =>
          omap (cons item) (spread g fuel' s' w')
      | (Throw e, w') => Raise e w'
      end
  end.

Definition collect {A : Type} (fuel : nat) (context : Iter A) (w : W)
  : Outcome (list A) :=
  let g := factory context tt in spread g fuel (cursor g) w.

Fixpoint reduce_loop {A B : Type} (reducer : B -> A -> B) (g : Generator A)
  (fuel : nat) (acc : B) (s : state g) (w : W) : Outcome B :=
  match fuel with
  | O => OutOfFuel
  | S fuel' =>
      match resume g s w with
      | (Done, w') => Ret acc w'
      | (Skip s', w') => reduce_loop reducer g fuel' acc s' w'
      | (Yield item s', w') =>
          reduce_loop reducer g fuel' (reducer acc item) s' w'
      | (Throw e, w') => Raise e w'
      end
  end.

Definition reduce {A B : Type} (fuel : nat) (reducer : B -> A -> B)
  (initial : B) (context : Iter A) (w : W) : Outcome B :=
  let g := factory context tt in
  reduce_loop reducer g fuel initial (cursor g) w.

Fixpoint fold_loop {A B : Type} (predicate : B -> A -> B) (g : Generator A)
  (fuel : nat) (acc : B) (s : state g) (w : W) : Outcome B :=
  match fuel with
  | O => OutOfFuel
  | S fuel' =>
      match resume g s w with
      | (Done, w') => Ret acc w'
      | (Skip s', w') => fold_loop predicate g fuel' acc s' w'
      | (Yield item s', w') =>
          fold_loop predicate g fuel' (predicate acc item) s' w'
      | (Throw e, w') => Raise e w'
      end
  end.

Definition fold {A B : Type} (fuel : nat) (initial : B)
  (predicate : B -> A -> B) (context : Iter A) (w : W) : Outcome B :=
  let g := factory context tt in
  fold_loop predicate g fuel initial (cursor g) w.

Fixpoint forEach_loop {A : Type} (callback : A -> W -> W) (g : Generator A)
  (fuel : nat) (s : state g) (w : W) : Outcome unit :=
  match fuel with
  | O => OutOfFuel
  | S fuel' =>
      match resume g s w with
      | (Done, w') => Ret tt w'
      | (Skip s', w') => forEach_loop callback g fuel' s' w'
      | (Yield item s', w') => forEach_loop callback g fuel' s' (callback item w')
      | (Throw e, w') => Raise e w'
      end
  end.

Definition forEach {A : Type} (fuel : nat) (callback : A -> W -> W)
  (context : Iter A) (w : W) : Outcome unit :=
  let g := factory context tt in forEach_loop callback g fuel (cursor g) w.

Fixpoint every_loop {A : Type} (predicate : A -> bool) (g : Generator A)
  (fuel : nat) (s : state g) (w : W) : Outcome bool :=
  match fuel with
  | O => OutOfFuel
  | S fuel' =>
      match resume g s w with
      | (Done, w') => Ret true w'
      | (Skip s', w') => every_loop predicate g fuel' s' w'
      | (Yield item s', w') =>
          if negb (predicate item) then Ret false w'
          else every_loop predicate g fuel' s' w'
      | (Throw e, w') => Raise e w'
      end
  end.

Definition every {A : Type} (fuel : nat) (predicate : A -> bool)
  (context : Iter A) (w : W) : Outcome bool :=
  let g := factory context tt in every_loop predicate g fuel (cursor g) w.

Fixpoint some_loop {A : Type} (predicate : A -> bool) (g : Generator A)
  (fuel : nat) (s : state g) (w : W) : Outcome bool :=
  match fuel with
  | O => OutOfFuel
  | S fuel' =>
      match resume g s w with
      | (Done, w') => Ret false w'
      | (Skip s', w') => some_loop predicate g fuel' s' w'
      | (Yield item s', w') =>
          if predicate item then Ret true w'
          else some_loop predicate g fuel' s' w'
      | (Throw e, w') => Raise e w'
      end
  end.

Definition some {A : Type} (fuel : nat) (predicate : A -> bool)
  (context : Iter A) (w : W) : Outcome bool :=
  let g := factory context tt in some_loop predicate g fuel (cursor g) w.

(** ** Observing pulls *)

(** [next_n g fuel n s w]: call [next()] on the generator object [n]
    times (fewer if it ends first) and report the items received and the
    world left behind.  Nothing is run once the [n]-th item has arrived. *)
Fixpoint next_n {A : Type} (g : Generator A) (fuel n : nat) (s : state g)
  (w : W) {struct fuel} : Outcome (list A) :=
  match n with
  | O => Ret [] w
  | S n' =>
      match fuel with
      | O => OutOfFuel
      | S fuel' =>
          match resume g s w with
          | (Done, w') => Ret [] w'
          | (Skip s', w') => next_n g fuel' n s' w'
          | (Yield item s', w') => omap (cons item) (next_n g fuel' n' s' w')
          | (Throw e, w') => Raise e w'
          end
      end
  end.

Definition pulls {A : Type} (fuel n : nat) (context : Iter A) (w : W)
  : Outcome (list A) :=
  let g := factory context tt in next_n g fuel n (cursor g) w.

End Model.

Arguments state {W A} _.
Arguments cursor {W A} _.
Arguments resume {W A} _ _ _.
Arguments mkGenerator {W A} _ _ _.
Arguments factory {W A} _ _.
Arguments mkIter {W A} _.
Arguments Ret {W X} x w.
Arguments Raise {W X} e w.
Arguments OutOfFuel {W X}.

(** ** Reference lists

    What a finite traversal is compared with. *)

(** The running accumulators of a left fold, the start value left out. *)
Fixpoint running {A B : Type} (f : B -> A -> B) (acc : B) (items : list A)
  : list B :=
  match items with
  | [] => []
  | item :: rest => f acc item :: running f (f acc item) rest
  end.

(** The overlapping pairs of [prev :: items]. *)
Fixpoint pairs_after {A : Type} (prev : A) (items : list A) : list (list A) :=
  match items with
  | [] => []
  | item :: rest => [prev; item] :: pairs_after item rest
  end.

Definition pairs {A : Type} (items : list A) : list (list A) :=
  match items with
  | [] => []
  | first :: rest => pairs_after first rest
  end.

(** [ascending a n] is [a, a+1, ..., a+n-1]; [descending a n] is
    [a, a-1, ..., a-n+1]. *)
Definition ascending (a : Z) (n : nat) : list number :=
  List.map (fun j => Fin (a + Z.of_nat j)) (seq 0 n).

Definition descending (a : Z) (n : nat) : list number :=
  List.map (fun j => Fin (a - Z.of_nat j)) (seq 0 n).

(** The inspector's effects on the items of a list, in order. *)
Definition inspected {W A : Type} (inspector : A -> W -> W) (items : list A)
  (w : W) : W :=
  fold_left (fun w item => inspector item w) items w.

(** What a caller sees of an outcome: the world apart. *)
Definition result {W X : Type} (o : @Outcome W X) : option (X + Error) :=
  match o with
  | Ret x _ => Some (inl x)
  | Raise e _ => Some (inr e)
  | OutOfFuel => None
  end.

(** ** Re-invocable sources and chains *)

(** A generator whose steps do not read the world: whatever earlier
    traversals or callbacks did, it moves the same way. *)
Definition reinvocable {W A : Type} (g : @Generator W A) : Prop :=
  forall (s : state g) (w1 w2 : W), fst (resume g s w1) = fst (resume g s w2).

(** A generator that leaves the world alone. *)
Definition silent {W A : Type} (g : @Generator W A) : Prop :=
  forall (s : state g) (w : W), snd (resume g s w) = w.

(** Pipelines built by the class's own constructors and combinators over
    re-invocable sources. *)
Inductive chain {W : Type} : forall {A : Type}, @Iter W A -> Prop :=
| chain_fromArray {A} (source : list A) : chain (fromArray source)
| chain_range (start end_ : number) : chain (range start end_)
| chain_repeat {A} (item : A) (repetitions : number) :
    chain (repeat item repetitions)
| chain_fromIterable {A} (g : @Generator W A) :
    reinvocable g -> chain (fromIterable (fun _ => g))
| chain_fromGenerator {A} (g : @Generator W A) :
    reinvocable g -> chain (fromGenerator (fun _ => g))
| chain_map {A B} (f : A -> B) (p : Iter A) : chain p -> chain (map f p)
| chain_filter {A} (f : A -> bool) (p : Iter A) : chain p -> chain (filter f p)
| chain_take {A} (count : number) (p : Iter A) : chain p -> chain (take count p)
| chain_pairwise {A} `{StructuredClone A} (p : Iter A) :
    chain p -> chain (pairwise p)
| chain_enumerate {A} (p : Iter A) : chain p -> chain (enumerate p)
| chain_scan {A B} (f : B -> A -> B) (initial : B) (p : Iter A) :
    chain p -> chain (scan f initial p)
| chain_inspect {A} (f : A -> W -> W) (p : Iter A) :
    chain p -> chain (inspect f p)
| chain_partition_truthy {A} (f : A -> bool) (p : Iter A) :
    chain p -> chain (fst (partition f p))
| chain_partition_falsy {A} (f : A -> bool) (p : Iter A) :
    chain p -> chain (snd (partition f p)).

(** [[Symbol.iterator]()]: an [Iter] is itself iterable. *)
Definition iterator {W A : Type} (context : @Iter W A) : unit -> @Generator W A :=
  fun _ => factory context tt.

(** The items of a list with their positions, counted from [i]. *)
Fixpoint indexed_from {A : Type} (i : Z) (items : list A)
  : list (number * A) :=
  match items with
  | [] => []
  | item :: rest => (Fin i, item) :: indexed_from (i + 1) rest
  end.

(** ** Observers used in examples *)

(** A recording inspector, as a test spy: the world is the list of the
    items it was called with. *)
Definition spy {A : Type} (item : A) (seen : list A) : list A :=
  seen ++ [item].

(** A single-use iterator: the items still to come live in the world, so
    a second traversal continues where the first one stopped. *)
Definition single_use {A : Type} : @Generator (list A) A :=
  mkGenerator unit tt
    (fun _ remaining =>
       match remaining with
       | [] => (Done, remaining)
       | item :: rest => (Yield item tt, rest)
       end).

(** ** Properties *)

Section Properties.

Context {W : Type}.

Implicit Types w : W.

Lemma omap_omap {X Y Z : Type} (f : X -> Y) (g : Y -> Z) (o : @Outcome W X) :
  omap g (omap f o) = omap (fun x => g (f x)) o.
Proof. destruct o; reflexivity. Qed.

Lemma omap_ext {X Y : Type} (f g : X -> Y) (o : @Outcome W X) :
  (forall x, f x = g x) -> omap f o = omap g o.
Proof. intros E; destruct o; cbn; now rewrite ?E. Qed.

Lemma omap_Ret_inv {X Y : Type} (f : X -> Y) (o : @Outcome W X) y w :
  omap f o = Ret y w -> exists x, o = Ret x w /\ y = f x.
Proof.
  destruct o as [x w0 | e w0 | ]; cbn; intros E; try discriminate.
  injection E as <- <-. now exists x.
Qed.

(** One iteration of the parent, by cases. *)
Ltac parent_step p s w :=
  destruct (resume (factory p tt) s w) as [[ | ?s | ?item ?s | ?e] ?w] eqn:?;
  cbn.

(** *** Stages that follow the parent step for step *)

Lemma spread_map {A B : Type} (f : A -> B) (p : @Iter W A) fuel :
  forall s w,
    spread (factory (map f p) tt) fuel s w
    = omap (List.map f) (spread (factory p tt) fuel s w).
Proof.
  induction fuel as [|fuel IH]; intros s w; [reflexivity|].
  cbn. parent_step p s w; try reflexivity.
  - apply IH.
  - rewrite IH, !omap_omap. reflexivity.
Qed.

Lemma spread_filter {A : Type} (f : A -> bool) (p : @Iter W A) fuel :
  forall s w,
    spread (factory (filter f p) tt) fuel s w
    = omap (List.filter f) (spread (factory p tt) fuel s w).
Proof.
  induction fuel as [|fuel IH]; intros s w; [reflexivity|].
  cbn. parent_step p s w; try reflexivity.
  - apply IH.
  - destruct (f item) eqn:E; cbn; rewrite IH, ?omap_omap;
      apply omap_ext; intros; cbn; now rewrite E.
Qed.

Lemma spread_truthy {A : Type} (f : A -> bool) (p : @Iter W A) fuel :
  forall s w,
    spread (factory (fst (partition f p)) tt) fuel s w
    = omap (List.filter f) (spread (factory p tt) fuel s w).
Proof. exact (spread_filter f p fuel). Qed.

Lemma spread_falsy {A : Type} (f : A -> bool) (p : @Iter W A) fuel :
  forall s w,
    spread (factory (snd (partition f p)) tt) fuel s w
    = omap (List.filter (fun item => negb (f item)))
        (spread (factory p tt) fuel s w).
Proof.
  induction fuel as [|fuel IH]; intros s w; [reflexivity|].
  cbn. parent_step p s w; try reflexivity.
  - apply IH.
  - destruct (f item) eqn:E; cbn; rewrite IH, ?omap_omap;
      apply omap_ext; intros; cbn; now rewrite E.
Qed.

Lemma spread_scan {A B : Type} (f : B -> A -> B) (initial : B)
  (p : @Iter W A) fuel :
  forall val s w,
    spread (factory (scan f initial p) tt) fuel (val, s) w
    = omap (running f val) (spread (factory p tt) fuel s w).
Proof.
  induction fuel as [|fuel IH]; intros val s w; [reflexivity|].
  cbn. parent_step p s w; try reflexivity.
  - apply IH.
  - rewrite IH, !omap_omap. reflexivity.
Qed.

Lemma next_n_scan {A B : Type} (f : B -> A -> B) (initial : B)
  (p : @Iter W A) fuel :
  forall n val s w,
    next_n (factory (scan f initial p) tt) fuel n (val, s) w
    = omap (running f val) (next_n (factory p tt) fuel n s w).
Proof.
  induction fuel as [|fuel IH]; intros [|n] val s w; try reflexivity.
  cbn. parent_step p s w; try reflexivity.
  - apply IH.
  - rewrite IH, !omap_omap. reflexivity.
Qed.

(** *** Folding *)

Lemma fold_loop_reduce_loop {A B : Type} (f : B -> A -> B)
  (g : @Generator W A) fuel :
  forall acc s w, fold_loop f g fuel acc s w = reduce_loop f g fuel acc s w.
Proof.
  induction fuel as [|fuel IH]; intros acc s w; [reflexivity|].
  cbn. destruct (resume g s w) as [[ | s' | item s' | e] w']; auto.
Qed.

Lemma reduce_loop_spread {A B : Type} (f : B -> A -> B)
  (g : @Generator W A) fuel :
  forall acc s w items w',
    spread g fuel s w = Ret items w' ->
    reduce_loop f g fuel acc s w = Ret (fold_left f items acc) w'.
Proof.
  induction fuel as [|fuel IH]; intros acc s w items w0; [discriminate|].
  cbn. destruct (resume g s w) as [[ | s' | item s' | e] w']; intros E.
  - now injection E as <- <-.
  - now apply IH.
  - apply omap_Ret_inv in E as (rest & E & ->). cbn. now apply IH.
  - discriminate.
Qed.

(** *** Doubles that hold integers *)

Lemma round_double_safe (z : Z) :
  (Z.abs z <= 2 ^ 53)%Z -> round_double z = z.
Proof.
  change (2 ^ 53)%Z with 9007199254740992%Z. intros B.
  destruct (Z.eq_dec (Z.abs z) 9007199254740992) as [E | N].
  - destruct (Z.abs_eq_or_opp z) as [A | A]; rewrite A in E.
    + subst z. reflexivity.
    + replace z with (-9007199254740992)%Z by lia. reflexivity.
  - assert (L : (Z.log2 (Z.abs z) <= 52)%Z).
    { destruct (Z.eq_dec (Z.abs z) 0) as [-> | P]; [cbn; lia|].
      assert (Z.log2 (Z.abs z) < 53)%Z; [|lia].
      apply Z.log2_lt_pow2; [lia|].
      change (2 ^ 53)%Z with 9007199254740992%Z. lia. }
    unfold round_double, ulp.
    replace (Z.max 0 (Z.log2 (Z.abs z) - 52)) with 0%Z by lia.
    change (2 ^ 0)%Z with 1%Z. cbv zeta.
    rewrite Z.mod_1_r, Z.div_1_r. cbn. lia.
Qed.

Lemma num_incr_exact (z : Z) :
  (- 2 ^ 53 <= z < 2 ^ 53)%Z -> num_incr (Fin z) = Fin (z + 1).
Proof.
  change (2 ^ 53)%Z with 9007199254740992%Z. intros B. cbn [num_incr].
  rewrite round_double_safe; [reflexivity|].
  change (2 ^ 53)%Z with 9007199254740992%Z. lia.
Qed.

Lemma num_decr_exact (z : Z) :
  (- 2 ^ 53 < z <= 2 ^ 53)%Z -> num_decr (Fin z) = Fin (z - 1).
Proof.
  change (2 ^ 53)%Z with 9007199254740992%Z. intros B. cbn [num_decr].
  rewrite round_double_safe; [reflexivity|].
  change (2 ^ 53)%Z with 9007199254740992%Z. lia.
Qed.

(** A counter that starts at 0 stays below [2^53] for as many items,
    and there the exact increment is the double's. *)
Lemma count_incr_is_num_incr (z : Z) :
  (0 <= z < 2 ^ 53)%Z -> count_incr (Fin z) = num_incr (Fin z).
Proof.
  intros B. rewrite num_incr_exact; [reflexivity|].
  change (2 ^ 53)%Z with 9007199254740992%Z in *. lia.
Qed.

(** *** Sources *)

Lemma skipn_nth_error {A : Type} (items : list A) :
  forall i item,
    nth_error items i = Some item -> skipn i items = item :: skipn (S i) items.
Proof.
  induction items as [|x items IH]; intros [|i] item E; try discriminate.
  - now injection E as ->.
  - cbn in E. apply IH in E. exact E.
Qed.

Lemma spread_S {A : Type} (g : @Generator W A) fuel s w :
  spread g (S fuel) s w
  = match resume g s w with
    | (Done, w') => Ret [] w'
    | (Skip s', w') => spread g fuel s' w'
    | (Yield item s', w') => omap (cons item) (spread g fuel s' w')
    | (Throw e, w') => Raise e w'
    end.
Proof. reflexivity. Qed.

Lemma resume_fromArray {A : Type} (source : list A) i w :
  resume (factory (fromArray source) tt) i w
  = if Nat.ltb i (length source) then
      match nth_error source i with
      | Some item => (Yield item (S i), w)
      | None => (Done, w)
      end
    else (Done, w).
Proof. reflexivity. Qed.

Lemma resume_range (start end_ i : number) w :
  resume (factory (range start end_) tt) i w
  = if num_ltb start end_ then
      if num_ltb i end_ then (Yield i (num_incr i), w) else (Done, w)
    else
      if num_gtb i end_ then (Yield i (num_decr i), w) else (Done, w).
Proof. reflexivity. Qed.

Lemma spread_fromArray {A : Type} (source : list A) (n : nat) :
  forall i k w,
    i + n = length source ->
    spread (factory (fromArray source) tt) (S n + k) i w
    = @Ret W _ (skipn i source) w.
Proof.
  induction n as [|n IH]; intros i k w E;
    change (S ?m + k) with (S (m + k)); rewrite spread_S, resume_fromArray.
  - replace (Nat.ltb i (length source)) with false
      by (symmetry; apply Nat.ltb_ge; lia).
    rewrite skipn_all2 by lia. reflexivity.
  - replace (Nat.ltb i (length source)) with true
      by (symmetry; apply Nat.ltb_lt; lia).
    destruct (nth_error source i) as [item|] eqn:N.
    + rewrite IH by lia. cbn [omap].
      now rewrite (skipn_nth_error _ _ _ N).
    + apply nth_error_None in N. lia.
Qed.

Lemma collect_fromArray {A : Type} (source : list A) k w :
  collect (S (length source) + k) (fromArray source) w = Ret source w.
Proof.
  unfold collect. cbv zeta. now rewrite spread_fromArray.
Qed.

Lemma ascending_S (a : Z) (n : nat) :
  ascending a (S n) = Fin a :: ascending (a + 1) n.
Proof.
  unfold ascending. cbn [seq List.map]. rewrite Z.add_0_r. f_equal.
  rewrite <- seq_shift, map_map. apply map_ext. intros j.
  f_equal. lia.
Qed.

Lemma descending_S (a : Z) (n : nat) :
  descending a (S n) = Fin a :: descending (a - 1) n.
Proof.
  unfold descending. cbn [seq List.map]. rewrite Z.sub_0_r. f_equal.
  rewrite <- seq_shift, map_map. apply map_ext. intros j.
  f_equal. lia.
Qed.

Lemma spread_range_ascending (a b : Z) (n : nat) :
  (a < b)%Z -> (b <= 2 ^ 53)%Z ->
  forall i k w,
    (- 2 ^ 53 <= i)%Z ->
    (i + Z.of_nat n = b)%Z ->
    spread (factory (range (Fin a) (Fin b)) tt) (S n + k) (Fin i) w
    = @Ret W _ (ascending i n) w.
Proof.
  intros Hab Hb. apply Z.ltb_lt in Hab.
  induction n as [|n IH]; intros i k w Hi E;
    change (S ?m + k) with (S (m + k)); rewrite spread_S, resume_range;
    cbn [num_ltb num_gtb]; rewrite Hab.
  - replace (i <? b)%Z with false by (symmetry; apply Z.ltb_ge; lia).
    reflexivity.
  - replace (i <? b)%Z with true by (symmetry; apply Z.ltb_lt; lia).
    rewrite num_incr_exact by lia.
    rewrite IH by lia. cbn [omap]. now rewrite ascending_S.
Qed.

Lemma spread_range_descending (a b : Z) (n : nat) :
  (b <= a)%Z -> (- 2 ^ 53 <= b)%Z ->
  forall i k w,
    (i <= 2 ^ 53)%Z ->
    (i - Z.of_nat n = b)%Z ->
    spread (factory (range (Fin a) (Fin b)) tt) (S n + k) (Fin i) w
    = @Ret W _ (descending i n) w.
Proof.
  intros Hab Hb. apply Z.ltb_ge in Hab.
  induction n as [|n IH]; intros i k w Hi E;
    change (S ?m + k) with (S (m + k)); rewrite spread_S, resume_range;
    cbn [num_ltb num_gtb]; rewrite Hab.
  - replace (b <? i)%Z with false by (symmetry; apply Z.ltb_ge; lia).
    reflexivity.
  - replace (b <? i)%Z with true by (symmetry; apply Z.ltb_lt; lia).
    rewrite num_decr_exact by lia.
    rewrite IH by lia. cbn [omap]. now rewrite descending_S.
Qed.

(** At [2^53] the increment rounds back to [2^53]: an ascending range
    that starts there never moves. *)
Lemma spread_range_stalled fuel :
  forall w,
    spread
      (factory (range (Fin 9007199254740992) (Fin 9007199254740994)) tt)
      fuel (Fin 9007199254740992) w
    = @OutOfFuel W _.
Proof.
  induction fuel as [|fuel IH]; intros w; [reflexivity|].
  rewrite spread_S, resume_range.
  change (num_ltb (Fin 9007199254740992) (Fin 9007199254740994)) with true.
  change (num_incr (Fin 9007199254740992)) with (Fin 9007199254740992).
  cbv iota. now rewrite IH.
Qed.

(** *** Pulling a bounded number of items *)

Lemma next_n_spread {A : Type} (g : @Generator W A) fuel :
  forall n s w items w',
    spread g fuel s w = Ret items w' ->
    exists w'', next_n g fuel n s w = Ret (firstn n items) w''.
Proof.
  induction fuel as [|fuel IH]; intros n s w items w0; [discriminate|].
  destruct n as [|n]; [intros _; now exists w|].
  cbn -[firstn]. destruct (resume g s w) as [[ | s' | item s' | e] w'];
    intros E.
  - injection E as <- <-. now exists w'.
  - eapply IH; eassumption.
  - apply omap_Ret_inv in E as (rest & E & ->).
    destruct (IH n _ _ _ _ E) as (w'' & ->). now exists w''.
  - discriminate.
Qed.

Lemma next_n_all {A : Type} (g : @Generator W A) fuel :
  forall n s w items w',
    spread g fuel s w = Ret items w' ->
    length items < n ->
    next_n g fuel n s w = Ret items w'.
Proof.
  induction fuel as [|fuel IH]; intros n s w items w0; [discriminate|].
  destruct n as [|n]; [lia|].
  cbn. destruct (resume g s w) as [[ | s' | item s' | e] w']; intros E L.
  - exact E.
  - now apply IH.
  - apply omap_Ret_inv in E as (rest & E & ->). cbn in L.
    rewrite (IH n _ _ _ _ E) by lia. reflexivity.
  - discriminate.
Qed.

Lemma next_n_length {A : Type} (g : @Generator W A) fuel :
  forall n s w items w',
    next_n g fuel n s w = Ret items w' -> length items <= n.
Proof.
  induction fuel as [|fuel IH]; intros [|n] s w items w0; cbn;
    try discriminate;
    try (intros E; injection E as <- <-; cbn; lia).
  destruct (resume g s w) as [[ | s' | item s' | e] w']; intros E.
  - injection E as <- <-. cbn. lia.
  - now apply IH in E.
  - apply omap_Ret_inv in E as (rest & E & ->). apply IH in E. cbn. lia.
  - discriminate.
Qed.

(** *** take *)

Lemma spread_take {A : Type} (n : nat) (p : @Iter W A) fuel :
  forall k i s w,
    (i = Z.of_nat n - Z.of_nat k)%Z -> k <= n ->
    spread (factory (take (Fin (Z.of_nat n)) p) tt) fuel (Fin i, s) w
    = omap (firstn k) (next_n (factory p tt) fuel (S k) s w).
Proof.
  induction fuel as [|fuel IH]; intros k i s w E L; [reflexivity|].
  cbn -[firstn Z.ltb Z.add Z.sub Z.of_nat].
  parent_step p s w.
  - now rewrite firstn_nil.
  - now apply IH.
  - unfold num_geb; cbn -[firstn Z.ltb Z.add Z.sub Z.of_nat].
    destruct k as [|k].
    + replace (i <? Z.of_nat n)%Z with false
        by (symmetry; apply Z.ltb_ge; lia).
      cbn. destruct fuel; reflexivity.
    + replace (i <? Z.of_nat n)%Z with true
        by (symmetry; apply Z.ltb_lt; lia).
      cbn -[firstn Z.ltb Z.add Z.sub Z.of_nat next_n].
      rewrite (IH k) by lia. rewrite !omap_omap. reflexivity.
  - reflexivity.
Qed.

(** *** inspect over a source that neither reads nor writes the world *)

Lemma resume_pure {A : Type} (g : @Generator W A) :
  reinvocable g -> silent g ->
  forall s w1 w2, resume g s w2 = (fst (resume g s w1), w2).
Proof.
  intros R Q s w1 w2. specialize (R s w1 w2). specialize (Q s w2).
  destruct (resume g s w2) as [st w']. cbn in R, Q. now rewrite R, Q.
Qed.

Lemma next_n_inspect {A : Type} (f : A -> W -> W) (p : @Iter W A) :
  reinvocable (factory p tt) -> silent (factory p tt) ->
  forall fuel n s w1 items w',
    next_n (factory p tt) fuel n s w1 = Ret items w' ->
    forall w2,
      next_n (factory (inspect f p) tt) fuel n s w2
      = Ret items (inspected f items w2).
Proof.
  intros R Q. induction fuel as [|fuel IH]; intros [|n] s w1 items w0;
    cbn -[inspected]; try discriminate;
    try (intros E w2; now injection E as <- <-).
  intros E w2. rewrite (resume_pure _ R Q s w1 w2).
  destruct (resume (factory p tt) s w1) as [[ | s' | item s' | e] w'];
    cbn -[inspected] in *.
  - now injection E as <- <-.
  - exact (IH (S n) _ _ _ _ E w2).
  - apply omap_Ret_inv in E as (rest & E & ->).
    now rewrite (IH n _ _ _ _ E).
  - discriminate.
Qed.

Lemma reinvocable_fromArray {A : Type} (source : list A) :
  reinvocable (W:=W) (factory (fromArray source) tt)
  /\ silent (W:=W) (factory (fromArray source) tt).
Proof.
  split; intros i; intros; rewrite !resume_fromArray;
    destruct (Nat.ltb i (length source)), (nth_error source i); reflexivity.
Qed.

Lemma reinvocable_range (start end_ : number) :
  reinvocable (W:=W) (factory (range start end_) tt)
  /\ silent (W:=W) (factory (range start end_) tt).
Proof.
  split; intros i; intros; rewrite !resume_range;
    destruct (num_ltb start end_), (num_ltb i end_), (num_gtb i end_);
    reflexivity.
Qed.

(** *** pairwise *)

Lemma clone_pair {A : Type} `{StructuredClone A} (a b : A) :
  cloneable a -> cloneable b -> structuredClone [a; b] = Some [a; b].
Proof.
  unfold cloneable. intros Ha Hb.
  unfold structuredClone at 1, clone_array. cbn. now rewrite Ha, Hb.
Qed.

Lemma clone_pair_fails {A : Type} `{StructuredClone A} (a b : A) :
  structuredClone a = None \/ structuredClone b = None ->
  structuredClone [a; b] = None.
Proof.
  intros E. unfold structuredClone at 1, clone_array. cbn.
  destruct E as [-> | ->]; [reflexivity|].
  now destruct (structuredClone a).
Qed.

Lemma resume_pairwise {A : Type} `{StructuredClone A} (p : @Iter W A)
  arr s w :
  resume (factory (pairwise p) tt) (arr, s) w
  = match resume (factory p tt) s w with
    | (Done, w') => (Done, w')
    | (Skip s', w') => (Skip (arr, s'), w')
    | (Yield item s', w') =>
        let arr := arr ++ [item] in
        if Nat.eqb (length arr) 2 then
          match structuredClone arr with
          | Some snapshot => (Yield snapshot (splice_0_1 arr, s'), w')
          | None => (Throw DataCloneError, w')
          end
        else (Skip (arr, s'), w')
    | (Throw e, w') => (Throw e, w')
    end.
Proof. reflexivity. Qed.

(** One iteration of [pairwise], by the cases of its parent. *)
Ltac pairwise_step p s w :=
  rewrite !spread_S, resume_pairwise;
  destruct (resume (factory p tt) s w) as [[ | ?s | ?item ?s | ?e] ?w];
  cbv zeta; cbn [app length Nat.eqb].

Lemma spread_pairwise_after {A : Type} `{StructuredClone A}
  (p : @Iter W A) fuel :
  forall prev s w items w',
    spread (factory p tt) fuel s w = Ret items w' ->
    cloneable prev -> Forall cloneable items ->
    spread (factory (pairwise p) tt) fuel ([prev], s) w
    = Ret (pairs_after prev items) w'.
Proof.
  induction fuel as [|fuel IH]; intros prev s w items w0; [discriminate|].
  pairwise_step p s w; intros E Hp Hi.
  - now injection E as <- <-.
  - now apply IH.
  - apply omap_Ret_inv in E as (rest & E & ->).
    inversion Hi as [|? ? Hitem Hrest]; subst.
    rewrite (clone_pair _ _ Hp Hitem).
    change (splice_0_1 [prev; item]) with [item].
    now rewrite (IH item _ _ _ _ E).
  - discriminate.
Qed.

Lemma spread_pairwise {A : Type} `{StructuredClone A} (p : @Iter W A) fuel :
  forall s w items w',
    spread (factory p tt) fuel s w = Ret items w' ->
    Forall cloneable items ->
    spread (factory (pairwise p) tt) fuel ([], s) w = Ret (pairs items) w'.
Proof.
  induction fuel as [|fuel IH]; intros s w items w0; [discriminate|].
  pairwise_step p s w; intros E Hi.
  - now injection E as <- <-.
  - now apply IH.
  - apply omap_Ret_inv in E as (rest & E & ->).
    inversion Hi as [|? ? Hitem Hrest]; subst.
    now apply spread_pairwise_after.
  - discriminate.
Qed.

Lemma spread_pairwise_throws_after {A : Type} `{StructuredClone A}
  (p : @Iter W A) fuel :
  forall a b s w w',
    next_n (factory p tt) fuel 1 s w = Ret [b] w' ->
    structuredClone [a; b] = None ->
    spread (factory (pairwise p) tt) fuel ([a], s) w
    = Raise DataCloneError w'.
Proof.
  induction fuel as [|fuel IH]; intros a b s w w0; [discriminate|].
  cbn [next_n]. pairwise_step p s w; intros E C; try discriminate.
  - now apply (IH a b).
  - destruct fuel; cbn in E; injection E as <- <-; now rewrite C.
Qed.

Lemma spread_pairwise_throws {A : Type} `{StructuredClone A}
  (p : @Iter W A) fuel :
  forall a b s w w',
    next_n (factory p tt) fuel 2 s w = Ret [a; b] w' ->
    structuredClone [a; b] = None ->
    spread (factory (pairwise p) tt) fuel ([], s) w
    = Raise DataCloneError w'.
Proof.
  induction fuel as [|fuel IH]; intros a b s w w0; [discriminate|].
  cbn [next_n]. pairwise_step p s w; intros E C; try discriminate.
  - now apply (IH a b).
  - apply omap_Ret_inv in E as (rest & E & R). injection R as <- <-.
    now apply (spread_pairwise_throws_after p fuel a b).
Qed.

Lemma pairs_after_length {A : Type} (items : list A) :
  forall prev, length (pairs_after prev items) = length items.
Proof. induction items as [|x items IH]; intros prev; cbn; auto. Qed.

Lemma pairs_after_nth {A : Type} (items : list A) :
  forall prev k a b,
    nth_error (prev :: items) k = Some a ->
    nth_error (prev :: items) (S k) = Some b ->
    nth_error (pairs_after prev items) k = Some [a; b].
Proof.
  induction items as [|x items IH]; intros prev [|k] a b Ha Hb; cbn in *;
    try discriminate.
  - now injection Ha as <-; injection Hb as <-.
  - now apply IH.
Qed.

(** *** scan *)

Lemma running_length {A B : Type} (f : B -> A -> B) (items : list A) :
  forall acc, length (running f acc items) = length items.
Proof. induction items as [|x items IH]; intros acc; cbn; auto. Qed.

Lemma running_nth {A B : Type} (f : B -> A -> B) (items : list A) :
  forall acc k,
    k < length items ->
    nth_error (running f acc items) k
    = Some (fold_left f (firstn (S k) items) acc).
Proof.
  induction items as [|x items IH]; intros acc k L; cbn in L; [lia|].
  destruct k as [|k]; [reflexivity|].
  cbn [running nth_error]. rewrite IH by lia. reflexivity.
Qed.

Lemma running_latest {A : Type} (items : list A) :
  forall acc, running (fun _ item => item) acc items = items.
Proof.
  induction items as [|x items IH]; intros acc; cbn; [reflexivity|].
  now rewrite IH.
Qed.

(** *** every *)

Lemma next_n_0 {A : Type} (g : @Generator W A) fuel s w :
  next_n g fuel 0 s w = Ret [] w.
Proof. destruct fuel; reflexivity. Qed.

Lemma every_loop_spread {A : Type} (f : A -> bool) (g : @Generator W A) fuel :
  forall s w items w',
    spread g fuel s w = Ret items w' ->
    exists w'',
      every_loop f g fuel s w = Ret (forallb f items) w''
      /\ (forallb f items = true -> w'' = w').
Proof.
  induction fuel as [|fuel IH]; intros s w items w0; [discriminate|].
  cbn. destruct (resume g s w) as [[ | s' | item s' | e] w']; intros E.
  - injection E as <- <-. now exists w'.
  - now apply IH.
  - apply omap_Ret_inv in E as (rest & E & ->). cbn.
    destruct (f item); cbn.
    + now apply IH.
    + exists w'. split; [reflexivity | discriminate].
  - discriminate.
Qed.

Lemma every_loop_short {A : Type} (f : A -> bool) (g : @Generator W A) fuel :
  forall s w w'',
    every_loop f g fuel s w = Ret false w'' ->
    exists passed failing,
      next_n g fuel (S (length passed)) s w = Ret (passed ++ [failing]) w''
      /\ forallb f passed = true
      /\ f failing = false.
Proof.
  induction fuel as [|fuel IH]; intros s w w0; [discriminate|].
  cbn. destruct (resume g s w) as [[ | s' | item s' | e] w']; intros E;
    try discriminate.
  - now apply IH.
  - destruct (f item) eqn:F; cbn in E.
    + destruct (IH _ _ _ E) as (passed & failing & N & P & Q).
      exists (item :: passed), failing. cbn. now rewrite N, F, P.
    + injection E as <-. exists [], item. cbn. now rewrite next_n_0.
Qed.

(** *** Traversals that do not read the world *)

Lemma reinvocable_result {A : Type} (g : @Generator W A) :
  reinvocable g ->
  forall fuel s w1 w2,
    result (spread g fuel s w1) = result (spread g fuel s w2).
Proof.
  intros R. induction fuel as [|fuel IH]; intros s w1 w2; [reflexivity|].
  cbn. specialize (R s w1 w2).
  destruct (resume g s w1) as [[ | s1 | item1 s1 | e1] w1'],
           (resume g s w2) as [[ | s2 | item2 s2 | e2] w2'];
    cbn in R; try discriminate; try reflexivity.
  - injection R as <-. apply IH.
  - injection R as <- <-. specialize (IH s1 w1' w2').
    destruct (spread g fuel s1 w1'), (spread g fuel s1 w2'); cbn in *;
      congruence.
  - now injection R as <-.
Qed.

(** A stage over a re-invocable parent: the parent's two steps agree, and
    the stage's own tests are on the item alone. *)
Ltac stage_reinvocable IH :=
  let s := fresh "s" in
  let w1 := fresh "w" in
  let w2 := fresh "w" in
  intros s w1 w2; cbn in s |- *;
  try (destruct s as [? s]);
  specialize (IH s w1 w2);
  destruct (resume _ s w1) as [[ | ? | ? ? | ?] ?],
           (resume _ s w2) as [[ | ? | ? ? | ?] ?];
  cbn in IH; try discriminate; try reflexivity;
  inversion IH; subst; try reflexivity;
  repeat match goal with
         | |- context [if ?c then _ else _] => destruct c
         | |- context [match ?c with Some _ => _ | None => _ end] => destruct c
         end;
  reflexivity.

Lemma chain_reinvocable {A : Type} (it : @Iter W A) :
  chain it -> reinvocable (factory it tt).
Proof.
  induction 1 as [ A source | start end_ | A item repetitions | A g IH | A g R
                 | A B f p C IH | A f p C IH | A count p C IH
                 | A H p C IH | A p C IH | A B f initial p C IH
                 | A f p C IH | A f p C IH | A f p C IH ];
    unfold reinvocable in *.
  - apply reinvocable_fromArray.
  - apply reinvocable_range.
  - intros i w1 w2. cbn. now destruct (num_ltb i repetitions).
  - stage_reinvocable IH.
  - exact R.
  - stage_reinvocable IH.
  - stage_reinvocable IH.
  - stage_reinvocable IH.
  - stage_reinvocable IH.
  - stage_reinvocable IH.
  - stage_reinvocable IH.
  - stage_reinvocable IH.
  - stage_reinvocable IH.
  - stage_reinvocable IH.
Qed.

Lemma spread_inspect {A : Type} (f : A -> W -> W) (p : @Iter W A) :
  reinvocable (factory p tt) -> silent (factory p tt) ->
  forall fuel s w1 items w',
    spread (factory p tt) fuel s w1 = Ret items w' ->
    forall w2,
      spread (factory (inspect f p) tt) fuel s w2
      = Ret items (inspected f items w2).
Proof.
  intros R Q. induction fuel as [|fuel IH]; intros s w1 items w0;
    [discriminate|].
  cbn -[inspected]. intros E w2. rewrite (resume_pure _ R Q s w1 w2).
  destruct (resume (factory p tt) s w1) as [[ | s' | item s' | e] w'];
    cbn -[inspected] in *.
  - now injection E as <- <-.
  - exact (IH _ _ _ _ E w2).
  - apply omap_Ret_inv in E as (rest & E & ->).
    now rewrite (IH _ _ _ _ E).
  - discriminate.
Qed.

(** *** partition *)

Lemma filter_complement_Permutation {A : Type} (f : A -> bool)
  (items : list A) :
  Permutation
    (List.filter f items ++ List.filter (fun item => negb (f item)) items)
    items.
Proof.
  induction items as [|x items IH]; cbn; [constructor|].
  destruct (f x); cbn.
  - now constructor.
  - symmetry. apply Permutation_cons_app. now symmetry.
Qed.

(** *** A parent that never delivers *)

Lemma spread_take_starved (count : number) fuel :
  forall i j w,
    spread
      (factory (take count (filter (fun _ => false) (range (Fin 0) PosInf))) tt)
      fuel (i, Fin j) w
    = @OutOfFuel W _.
Proof.
  induction fuel as [|fuel IH]; intros i j w; [reflexivity|].
  cbn -[Z.add]. apply IH.
Qed.

(** ** The specification, claim by claim *)

(** C2 (amended).  [range(start, end)] over integers of magnitude at
    most [2^53]: from [start] toward [end], [end] excluded, by +1 when
    [start < end] and by -1 otherwise, empty when they are equal;
    [|end - start| + 1] iterations are enough, and more change nothing.
    [range(0,3)], [range(0,-4)] and [range(2,2)] collect to [0,1,2],
    [0,-1,-2,-3] and []. *)
Theorem range_spec (start end_ : Z) (k : nat) (w : W) :
  (Z.abs start <= 2 ^ 53)%Z ->
  (Z.abs end_ <= 2 ^ 53)%Z ->
  collect (S (Z.to_nat (Z.abs (end_ - start))) + k)
    (range (Fin start) (Fin end_)) w
  = Ret (if (start <? end_)%Z
         then ascending start (Z.to_nat (end_ - start))
         else descending start (Z.to_nat (start - end_))) w
  /\ collect (1 + k) (range (Fin start) (Fin start)) w = Ret [] w
  /\ collect (4 + k) (range (Fin 0) (Fin 3)) w
     = Ret [Fin 0; Fin 1; Fin 2] w
  /\ collect (5 + k) (range (Fin 0) (Fin (-4))) w
     = Ret [Fin 0; Fin (-1); Fin (-2); Fin (-3)] w
  /\ collect (1 + k) (range (Fin 2) (Fin 2)) w = Ret [] w.
Proof.
  intros Bs Be.
  split; [|split; [|repeat split]].
  - unfold collect. cbv zeta. change (cursor _) with (Fin start).
    destruct (start <? end_)%Z eqn:L.
    + apply Z.ltb_lt in L.
      replace (Z.to_nat (Z.abs (end_ - start)))
        with (Z.to_nat (end_ - start)) by lia.
      apply spread_range_ascending; lia.
    + apply Z.ltb_ge in L.
      replace (Z.to_nat (Z.abs (end_ - start)))
        with (Z.to_nat (start - end_)) by lia.
      apply spread_range_descending; lia.
  - unfold collect. cbv zeta. change (cursor _) with (Fin start).
    apply (spread_range_descending start start 0); lia.
Qed.

(** C3.  On every sequence, finite or not, [scan(f, initial)] yields
    one output per input: what it delivers to [n] calls of [next()] is
    the running accumulators of what its parent delivers to [n] calls,
    the [k]-th being [f] folded over the first [k+1] items from
    [initial], so the bare [initial] is never an output of its own;
    collected, it is the running accumulators of the collected parent,
    and [fromArray([1,2,3]).scan(+, 10)] collects to [11,13,16]. *)
Theorem scan_spec {A B : Type} (f : B -> A -> B) (initial : B)
  (p : @Iter W A) (fuel : nat) (w : W) :
  collect fuel (scan f initial p) w
  = omap (running f initial) (collect fuel p w)
  /\ (forall n,
        pulls fuel n (scan f initial p) w
        = omap (running f initial) (pulls fuel n p w))
  /\ (forall items : list A,
        length (running f initial items) = length items
        /\ forall k, k < length items ->
             nth_error (running f initial items) k
             = Some (fold_left f (firstn (S k) items) initial))
  /\ (forall j, collect (4 + j) (scan Z.add 10%Z (fromArray [1; 2; 3]%Z)) w
                = Ret [11; 13; 16]%Z w).
Proof.
  split; [apply spread_scan|]. split; [intros n; apply next_n_scan|].
  split; [|reflexivity].
  intros items. split; [apply running_length | apply running_nth].
Qed.

(** C4.  [partition(p)] of a finite source: the first sequence collects
    to the items satisfying the predicate, the second to those that do
    not, each in source order, and together they hold every item of the
    source exactly once.  Over a re-invocable source the second branch
    gives the same items when it is traversed after the first. *)
Theorem partition_spec {A : Type} (f : A -> bool) (p : @Iter W A)
  (fuel : nat) (w : W) (items : list A) (w' : W) :
  collect fuel p w = Ret items w' ->
  collect fuel (fst (partition f p)) w = Ret (List.filter f items) w'
  /\ collect fuel (snd (partition f p)) w
     = Ret (List.filter (fun item => negb (f item)) items) w'
  /\ Permutation
       (List.filter f items ++ List.filter (fun item => negb (f item)) items)
       items
  /\ (chain p ->
      result (collect fuel (snd (partition f p)) w')
      = Some (inl (List.filter (fun item => negb (f item)) items))).
Proof.
  intros E. unfold collect in *. cbv zeta in *.
  split; [|split; [|split]].
  - change (cursor _) with (cursor (factory p tt)).
    now rewrite spread_truthy, E.
  - change (cursor _) with (cursor (factory p tt)).
    now rewrite spread_falsy, E.
  - apply filter_complement_Permutation.
  - intros C. change (cursor _) with (cursor (factory p tt)).
    rewrite spread_falsy.
    pose proof (reinvocable_result _ (chain_reinvocable _ C) fuel
                  (cursor (factory p tt)) w' w) as R.
    rewrite E in R. destruct (spread (factory p tt) fuel _ w'); cbn in *;
      congruence.
Qed.

(** C6.  [reduce(f, i)] and [fold(i, f)] are the same left fold: over a
    finite sequence both return [f] applied to each item in order from
    [i], whether or not [f] is associative, and [i] itself on the empty
    sequence. *)
Theorem reduce_fold_spec {A B : Type} (f : B -> A -> B) (i : B)
  (p : @Iter W A) (fuel : nat) (w : W) (items : list A) (w' : W) :
  collect fuel p w = Ret items w' ->
  fold fuel i f p w = reduce fuel f i p w
  /\ reduce fuel f i p w = Ret (fold_left f items i) w'
  /\ fold fuel i f p w = Ret (fold_left f items i) w'
  /\ (forall k, reduce (1 + k) f i (fromArray []) w = Ret i w
                /\ fold (1 + k) i f (fromArray []) w = Ret i w)
  /\ (forall k, reduce (4 + k) Z.sub 10%Z (fromArray [1; 2; 3]%Z) w
                = Ret 4%Z w
                /\ fold (4 + k) 10%Z Z.sub (fromArray [1; 2; 3]%Z) w
                   = Ret 4%Z w).
Proof.
  intros E.
  assert (F : fold fuel i f p w = reduce fuel f i p w)
    by apply fold_loop_reduce_loop.
  assert (R : reduce fuel f i p w = Ret (fold_left f items i) w')
    by now apply reduce_loop_spread.
  split; [exact F|]. split; [exact R|]. split; [now rewrite F|].
  split; intros k; split; reflexivity.
Qed.

Lemma collect_take {A : Type} (p : @Iter W A) (n fuel : nat) (w : W) :
  collect fuel (take (Fin (Z.of_nat n)) p) w
  = omap (firstn n) (pulls fuel (S n) p w).
Proof. apply (spread_take n p fuel n 0%Z); lia. Qed.

Lemma collect_take_finite {A : Type} (p : @Iter W A) (n fuel : nat) (w : W)
  (items : list A) (w' : W) :
  collect fuel p w = Ret items w' ->
  exists w'',
    collect fuel (take (Fin (Z.of_nat n)) p) w = Ret (firstn n items) w''
    /\ pulls fuel (S n) p w = Ret (firstn (S n) items) w''.
Proof.
  intros E.
  destruct (next_n_spread _ fuel (S n) _ _ _ _ E) as (w'' & N).
  exists w''. split; [|exact N].
  rewrite collect_take. unfold pulls. cbv zeta. rewrite N. cbn [omap].
  rewrite firstn_firstn. now replace (Nat.min n (S n)) with n by lia.
Qed.


(** C9.  When the parent delivers an [(n+1)]-th item, be it finite or
    unbounded, consuming [take(n)] leaves the parent exactly where
    [n + 1] calls of [next()] leave it: the [n] items yielded and one
    more, pulled and dropped.  An [inspect] stage directly upstream
    therefore runs its inspector on [n + 1] items.  For a finite parent
    these are its first [n + 1] items, of more than [n]. *)
Theorem take_pulls_one_more {A : Type} (p : @Iter W A) (n fuel : nat)
  (w : W) (pulled : list A) (w'' : W) :
  pulls fuel (S n) p w = Ret pulled w'' ->
  length pulled = S n ->
  collect fuel (take (Fin (Z.of_nat n)) p) w = Ret (firstn n pulled) w''
  /\ length (firstn n pulled) = n
  /\ (forall inspector : A -> W -> W,
        reinvocable (factory p tt) -> silent (factory p tt) ->
        collect fuel (take (Fin (Z.of_nat n)) (inspect inspector p)) w
        = Ret (firstn n pulled) (inspected inspector pulled w))
  /\ (forall items w',
        collect fuel p w = Ret items w' ->
        pulled = firstn (S n) items /\ n < length items).
Proof.
  intros N L.
  split; [now rewrite collect_take, N|].
  split; [apply firstn_length_le; lia|]. split.
  - intros inspector R Q. rewrite collect_take.
    unfold pulls in *. cbv zeta in *.
    change (cursor (factory (inspect inspector p) tt))
      with (cursor (factory p tt)).
    now rewrite (next_n_inspect inspector p R Q _ _ _ _ _ _ N).
  - intros items w' E.
    destruct (collect_take_finite p n fuel w _ _ E) as (w3 & _ & N').
    assert (P : pulled = firstn (S n) items) by congruence.
    split; [exact P|].
    rewrite P in L. rewrite length_firstn in L. lia.
Qed.

(** C5 (amended).  Over a finite source of [k] structured-cloneable
    items, [pairwise()] collects to the [k - 1] overlapping pairs
    [e0,e1], [e1,e2], ... in order; [fromArray([0,1,2,3,4])] gives
    [[0,1],[1,2],[2,3],[3,4]]; a source of length 0 or 1 gives no pair,
    whatever its items. *)
Theorem pairwise_spec {A : Type} `{StructuredClone A} (p : @Iter W A)
  (fuel : nat) (w : W) (items : list A) (w' : W) :
  collect fuel p w = Ret items w' ->
  Forall cloneable items ->
  collect fuel (pairwise p) w = Ret (pairs items) w'
  /\ length (pairs items) = length items - 1
  /\ (forall k a b,
        nth_error items k = Some a -> nth_error items (S k) = Some b ->
        nth_error (pairs items) k = Some [a; b])
  /\ (forall j,
        collect (6 + j) (pairwise (fromArray [0; 1; 2; 3; 4]%Z)) w
        = Ret [[0; 1]; [1; 2]; [2; 3]; [3; 4]]%Z w)
  /\ (forall (source : list A) j,
        length source <= 1 ->
        collect (2 + j) (pairwise (fromArray source)) w = Ret [] w).
Proof.
  intros E C. split; [now apply spread_pairwise|].
  split; [|split; [|split]].
  - destruct items as [|x items]; cbn; [reflexivity|].
    rewrite pairs_after_length. lia.
  - intros k a b Ha Hb. destruct items as [|x items].
    + destruct k; discriminate.
    + now apply pairs_after_nth.
  - reflexivity.
  - intros [|x [|y source]] j L; cbn in L; try lia; reflexivity.
Qed.

(** C10.  [pairwise()] clones each pair with [structuredClone] before
    yielding it, so when the first two items of its parent cannot be
    cloned (function values and symbols cannot) the traversal throws
    [DataCloneError] at its first pair, having pulled just those two
    items; [map], [filter], [take], [scan], [inspect] and [partition]
    hand the same items on. *)
Theorem pairwise_throws_uncloneable {A : Type} `{StructuredClone A}
  (p : @Iter W A) (fuel : nat) (w : W) (a b : A) (w' : W) :
  pulls fuel 2 p w = Ret [a; b] w' ->
  structuredClone a = None ->
  structuredClone b = None ->
  collect fuel (pairwise p) w = Raise DataCloneError w'
  /\ (forall id, structuredClone (VFunction id) = None
                 /\ structuredClone (VSymbol id) = None)
  /\ (forall (rest : list A) j,
        let source := a :: b :: rest in
        let enough := S (length source) + j in
        collect (2 + j) (pairwise (fromArray source)) w
        = Raise DataCloneError w
        /\ collect enough (map (fun item => item) (fromArray source)) w
           = Ret source w
        /\ collect enough (filter (fun _ => true) (fromArray source)) w
           = Ret source w
        /\ collect enough
             (take (Fin (Z.of_nat (length source))) (fromArray source)) w
           = Ret source w
        /\ collect enough (scan (fun _ item => item) a (fromArray source)) w
           = Ret source w
        /\ (forall inspector : A -> W -> W,
              collect enough (inspect inspector (fromArray source)) w
              = Ret source (inspected inspector source w))
        /\ collect enough (fst (partition (fun _ => true) (fromArray source))) w
           = Ret source w
        /\ collect enough (snd (partition (fun _ => false) (fromArray source))) w
           = Ret source w).
Proof.
  intros N Ca Cb.
  assert (C : structuredClone [a; b] = None)
    by (apply clone_pair_fails; now left).
  split; [now apply (spread_pairwise_throws p fuel a b)|].
  split; [intros id; split; reflexivity|].
  intros rest j source enough.
  assert (E : collect enough (fromArray source) w = Ret source w)
    by apply collect_fromArray.
  unfold collect in *. cbv zeta in *.
  change (cursor (factory (fromArray source) tt)) with 0 in E.
  repeat match goal with |- _ /\ _ => split end.
  - apply (spread_pairwise_throws (fromArray source) (2 + j) a b);
      [|exact C].
    subst source. cbn. now rewrite next_n_0.
  - change (cursor _) with 0. rewrite spread_map, E. cbn [omap].
    now rewrite map_id.
  - change (cursor _) with 0. rewrite spread_filter, E. cbn [omap].
    f_equal. apply forallb_filter_id. now apply forallb_forall.
  - change (spread
              (factory (take (Fin (Z.of_nat (length source)))
                          (fromArray source)) tt)
              enough (Fin 0, 0) w = Ret source w).
    rewrite (spread_take (length source) (fromArray source) enough
               (length source) 0%Z) by lia.
    rewrite (next_n_all _ _ _ _ _ _ _ E) by lia. cbn [omap].
    now rewrite firstn_all.
  - change (spread (factory (scan (fun _ item => item) a (fromArray source)) tt)
              enough (a, 0) w = Ret source w).
    rewrite spread_scan, E. cbn [omap]. f_equal. apply running_latest.
  - intros inspector.
    apply (spread_inspect inspector (fromArray source))
      with (w1 := w) (w' := w).
    + apply reinvocable_fromArray.
    + apply reinvocable_fromArray.
    + exact E.
  - change (cursor _) with 0. rewrite spread_truthy, E. cbn [omap].
    f_equal. apply forallb_filter_id. now apply forallb_forall.
  - change (cursor _) with 0. rewrite spread_falsy, E. cbn [omap].
    f_equal. apply forallb_filter_id. now apply forallb_forall.
Qed.

(** When the parent never delivers another item, [take] waits for it
    even though nothing more is wanted. *)
Lemma take_starved_diverges (count : number) (fuel : nat) (w : W) :
  collect fuel
    (take count (filter (fun _ => false) (range (Fin 0) PosInf))) w
  = OutOfFuel.
Proof. apply spread_take_starved. Qed.

(** C7.  [every(pred)] over a finite sequence returns [true] exactly
    when every item satisfies [pred] (so [true] on the empty sequence),
    after a full traversal; when it returns [false] it has pulled the
    items up to the first failing one and nothing after it.  On
    [range(0, +Infinity)] with [x < 3] it returns [false] after four
    iterations. *)
Theorem every_spec {A : Type} (f : A -> bool) (p : @Iter W A) (fuel : nat)
  (w : W) (items : list A) (w' : W) :
  collect fuel p w = Ret items w' ->
  exists b w'',
    every fuel f p w = Ret b w''
    /\ (b = true <-> forall item, In item items -> f item = true)
    /\ (items = [] -> b = true)
    /\ (b = true -> w'' = w')
    /\ (b = false ->
        exists passed failing rest,
          items = passed ++ failing :: rest
          /\ forallb f passed = true
          /\ f failing = false
          /\ pulls fuel (S (length passed)) p w
             = Ret (passed ++ [failing]) w'')
    /\ (forall k,
          every (4 + k) (fun x => num_ltb x (Fin 3)) (range (Fin 0) PosInf) w
          = Ret false w).
Proof.
  intros E. unfold collect, every, pulls in *. cbv zeta in *.
  destruct (every_loop_spread f _ fuel _ _ _ _ E) as (w'' & V & T).
  exists (forallb f items), w''. split; [exact V|].
  split; [apply forallb_forall|]. split; [now intros ->|].
  split; [exact T|]. split; [|reflexivity].
  intros F. rewrite F in V.
  destruct (every_loop_short f _ fuel _ _ _ V)
    as (passed & failing & N & P & Q).
  destruct (next_n_spread _ fuel (S (length passed)) _ _ _ _ E) as (w3 & N').
  assert (Hitems : passed ++ [failing] = firstn (S (length passed)) items)
    by congruence.
  exists passed, failing, (skipn (S (length passed)) items).
  split; [|now repeat split].
  rewrite <- (firstn_skipn (S (length passed)) items) at 1.
  rewrite <- Hitems, <- app_assoc. reflexivity.
Qed.

(** C8.  A pipeline built from [fromArray], [range], [repeat] or any
    re-invocable source through the combinators collects to the same
    array the second time as the first, although the second traversal
    starts in the world the first one left; [fromArray([1,2,3])]
    collects to [1,2,3] and leaves the world as it was, so every further
    call is the same call. *)
Theorem collect_twice {A : Type} (it : @Iter W A) (fuel : nat) (w : W)
  (items : list A) (w1 : W) :
  chain it ->
  collect fuel it w = Ret items w1 ->
  (exists w2, collect fuel it w1 = Ret items w2)
  /\ (forall k, collect (4 + k) (fromArray [1; 2; 3]%Z) w
                = Ret [1; 2; 3]%Z w).
Proof.
  intros C E. split; [|reflexivity].
  unfold collect in *. cbv zeta in *.
  pose proof (reinvocable_result _ (chain_reinvocable _ C) fuel
                (cursor (factory it tt)) w w1) as R.
  rewrite E in R.
  destruct (spread (factory it tt) fuel _ w1) as [items' w2 | |];
    cbn in R; try discriminate.
  injection R as <-. now exists w2.
Qed.

End Properties.

(** ** Instances *)

(** C2, at a concrete input: the last two integers below [2^53]. *)
Lemma range_spec_witness :
  (Z.abs 9007199254740990 <= 2 ^ 53)%Z
  /\ (Z.abs 9007199254740992 <= 2 ^ 53)%Z
  /\ collect 3 (range (Fin 9007199254740990) (Fin 9007199254740992)) tt
     = Ret [Fin 9007199254740990; Fin 9007199254740991] tt.
Proof.
  split; [vm_compute; discriminate|]. split; [vm_compute; discriminate|].
  exact (proj1 (range_spec 9007199254740990 9007199254740992 0 tt
                  ltac:(vm_compute; discriminate)
                  ltac:(vm_compute; discriminate))).
Defined.

(** C2 as first stated fails: [range(2^53, 2^53 + 2)] is to give
    [2^53, 2^53 + 1], but [2^53 + 1] rounds back to [2^53]; the range
    yields [2^53] again and again, and collecting it never returns. *)
Lemma range_stalls_counterexample :
  pulls 3 3 (range (Fin 9007199254740992) (Fin 9007199254740994)) tt
  = Ret [Fin 9007199254740992; Fin 9007199254740992; Fin 9007199254740992] tt
  /\ (forall fuel,
        collect fuel (range (Fin 9007199254740992) (Fin 9007199254740994)) tt
        = OutOfFuel).
Proof.
  split; [vm_compute; reflexivity|].
  intros fuel. apply (spread_range_stalled fuel tt).
Qed.



(** C9, at a concrete input: over the unbounded [range(0, +Infinity)]
    a counting inspector upstream of [take(2)] is called three times. *)
Lemma take_pulls_one_more_witness :
  pulls 3 3 (range (Fin 0) PosInf) 0 = Ret [Fin 0; Fin 1; Fin 2] 0
  /\ length [Fin 0; Fin 1; Fin 2] = 3
  /\ collect 3
       (take (Fin 2) (inspect (fun _ calls => S calls)
                        (range (Fin 0) PosInf))) 0
     = Ret [Fin 0; Fin 1] 3.
Proof.
  split; [reflexivity|]. split; [reflexivity|].
  destruct (take_pulls_one_more (range (Fin 0) PosInf) 2 3 0
              [Fin 0; Fin 1; Fin 2] 0 eq_refl eq_refl) as (_ & _ & I & _).
  exact (I (fun _ calls => S calls)
           (proj1 (reinvocable_range _ _))
           (proj2 (reinvocable_range _ _))).
Defined.

(** C3, at concrete inputs: the array of the example, and three pulls
    from the unbounded [repeat(1, +Infinity)]. *)
Lemma scan_spec_witness :
  collect 4 (scan Z.add 10%Z (fromArray [1; 2; 3]%Z)) tt
  = Ret [11; 13; 16]%Z tt
  /\ pulls 3 3 (scan Z.add 10%Z (repeat 1%Z PosInf)) tt
     = Ret [11; 12; 13]%Z tt.
Proof.
  split.
  - exact (eq_trans
             (proj1 (scan_spec Z.add 10%Z (fromArray [1; 2; 3]%Z) 4 tt))
             eq_refl).
  - exact (eq_trans
             (proj1 (proj2 (scan_spec Z.add 10%Z (repeat 1%Z PosInf) 3 tt)) 3)
             eq_refl).
Defined.

(** C4, at a concrete input: even and odd items of [1,2,3,4]. *)
Lemma partition_spec_witness :
  collect 5 (fromArray [1; 2; 3; 4]%Z) tt = Ret [1; 2; 3; 4]%Z tt
  /\ collect 5 (fst (partition Z.even (fromArray [1; 2; 3; 4]%Z))) tt
     = Ret [2; 4]%Z tt
  /\ collect 5 (snd (partition Z.even (fromArray [1; 2; 3; 4]%Z))) tt
     = Ret [1; 3]%Z tt.
Proof.
  split; [reflexivity|].
  pose proof (partition_spec Z.even (fromArray [1; 2; 3; 4]%Z) 5 tt
                [1; 2; 3; 4]%Z tt eq_refl) as (T & F & _).
  split; [exact T | exact F].
Defined.

(** C5, at a concrete input. *)
Lemma pairwise_spec_witness :
  collect 4 (fromArray [0; 1; 2]%Z) tt = Ret [0; 1; 2]%Z tt
  /\ Forall cloneable [0; 1; 2]%Z
  /\ collect 4 (pairwise (fromArray [0; 1; 2]%Z)) tt
     = Ret [[0; 1]; [1; 2]]%Z tt.
Proof.
  split; [reflexivity|]. split; [repeat constructor|].
  exact (proj1 (pairwise_spec (fromArray [0; 1; 2]%Z) 4 tt [0; 1; 2]%Z tt
                  eq_refl ltac:(repeat constructor))).
Defined.

(** C5 as first stated fails: a source of two function values has length
    2, yet [pairwise()] yields no pair from it and throws. *)
Lemma pairwise_uncloneable_counterexample :
  collect 3 (pairwise (fromArray [VFunction 0; VFunction 1])) tt
  = Raise DataCloneError tt
  /\ collect 3 (pairwise (fromArray [VFunction 0; VFunction 1])) tt
     <> Ret (pairs [VFunction 0; VFunction 1]) tt.
Proof. split; [reflexivity | discriminate]. Qed.

(** C6, at a concrete input and a function that is not associative. *)
Lemma reduce_fold_spec_witness :
  collect 4 (fromArray [1; 2; 3]%Z) tt = Ret [1; 2; 3]%Z tt
  /\ fold 4 10%Z Z.sub (fromArray [1; 2; 3]%Z) tt = Ret 4%Z tt
  /\ reduce 4 Z.sub 10%Z (fromArray [1; 2; 3]%Z) tt = Ret 4%Z tt.
Proof.
  split; [reflexivity|].
  pose proof (reduce_fold_spec Z.sub 10%Z (fromArray [1; 2; 3]%Z) 4 tt
                [1; 2; 3]%Z tt eq_refl) as (_ & R & F & _).
  split; [exact F | exact R].
Defined.

(** C7, at a concrete input: the spy upstream of [every(x < 2)] over
    [1,2,3] sees 1 and 2, never 3. *)
Lemma every_spec_witness :
  collect 4 (inspect spy (fromArray [1; 2; 3]%Z)) [] = Ret [1; 2; 3]%Z [1; 2; 3]%Z
  /\ every 4 (fun x => x <? 2)%Z (inspect spy (fromArray [1; 2; 3]%Z)) []
     = Ret false [1; 2]%Z.
Proof.
  split; [reflexivity|].
  destruct (every_spec (fun x => x <? 2)%Z (inspect spy (fromArray [1; 2; 3]%Z))
              4 [] [1; 2; 3]%Z [1; 2; 3]%Z eq_refl) as (b & w'' & E & _).
  cbv in E. injection E as <- <-. reflexivity.
Defined.

(** C8, at a concrete input: the first traversal leaves its trace in the
    world, the second one collects the same array all the same. *)
Lemma collect_twice_witness :
  chain (inspect spy (fromArray [1; 2; 3]%Z))
  /\ collect 4 (inspect spy (fromArray [1; 2; 3]%Z)) []
     = Ret [1; 2; 3]%Z [1; 2; 3]%Z
  /\ exists w2,
       collect 4 (inspect spy (fromArray [1; 2; 3]%Z)) [1; 2; 3]%Z
       = Ret [1; 2; 3]%Z w2.
Proof.
  split; [apply chain_inspect, chain_fromArray|]. split; [reflexivity|].
  exact (proj1 (collect_twice (inspect spy (fromArray [1; 2; 3]%Z)) 4 []
                  [1; 2; 3]%Z [1; 2; 3]%Z
                  (chain_inspect _ _ (chain_fromArray _)) eq_refl)).
Defined.

(** Outside the chains: over a single-use iterator the second traversal
    finds nothing left. *)
Example single_use_not_retraversable :
  collect 4 (fromIterable (fun _ => single_use)) [1; 2; 3]%Z
  = Ret [1; 2; 3]%Z []
  /\ collect 4 (fromIterable (fun _ => single_use)) ([] : list Z)
     = Ret [] [].
Proof. split; reflexivity. Qed.

(** C10, at a concrete input: two function values. *)
Lemma pairwise_throws_uncloneable_witness :
  pulls 3 2 (fromArray [VFunction 0; VFunction 1]) tt
  = Ret [VFunction 0; VFunction 1] tt
  /\ structuredClone (VFunction 0) = None
  /\ structuredClone (VFunction 1) = None
  /\ collect 3 (pairwise (fromArray [VFunction 0; VFunction 1])) tt
     = Raise DataCloneError tt.
Proof.
  split; [reflexivity|]. split; [reflexivity|]. split; [reflexivity|].
  exact (proj1 (pairwise_throws_uncloneable
                  (fromArray [VFunction 0; VFunction 1]) 3 tt
                  (VFunction 0) (VFunction 1) tt eq_refl eq_refl eq_refl)).
Defined.

(** ** Further properties of the combinators *)

Section Composition.

Context {W : Type}.

Implicit Types w : W.

Ltac parent_cases p s w :=
  destruct (resume (factory p tt) s w) as [[ | ?s | ?item ?s | ?e] ?w] eqn:?;
  cbn.

Lemma next_n_S {A : Type} (g : @Generator W A) fuel n s w :
  next_n g (S fuel) (S n) s w
  = match resume g s w with
    | (Done, w') => Ret [] w'
    | (Skip s', w') => next_n g fuel (S n) s' w'
    | (Yield item s', w') => omap (cons item) (next_n g fuel n s' w')
    | (Throw e, w') => Raise e w'
    end.
Proof. reflexivity. Qed.

Lemma spread_enumerate {A : Type} (p : @Iter W A) fuel :
  forall i s w,
    spread (factory (enumerate p) tt) fuel (Fin i, s) w
    = omap (indexed_from i) (spread (factory p tt) fuel s w).
Proof.
  induction fuel as [|fuel IH]; intros i s w; [reflexivity|].
  cbn -[Z.add]. parent_cases p s w; try reflexivity.
  - apply IH.
  - rewrite IH, !omap_omap. reflexivity.
Qed.

Lemma indexed_from_nth {A : Type} (items : list A) :
  forall i k item,
    nth_error items k = Some item ->
    nth_error (indexed_from i items) k = Some (Fin (i + Z.of_nat k), item).
Proof.
  induction items as [|x items IH]; intros i [|k] item E;
    try discriminate.
  - injection E as ->. cbn. now rewrite Z.add_0_r.
  - cbn [indexed_from nth_error]. cbn [nth_error] in E.
    rewrite (IH _ _ _ E).
    now replace (i + Z.of_nat (S k))%Z with (i + 1 + Z.of_nat k)%Z by lia.
Qed.

Lemma indexed_from_snd {A : Type} (items : list A) :
  forall i, List.map snd (indexed_from i items) = items.
Proof.
  induction items as [|x items IH]; intros i; cbn -[Z.add];
    [reflexivity|]. now rewrite IH.
Qed.

Lemma forEach_loop_inspect {A : Type} (callback : A -> W -> W)
  (p : @Iter W A) fuel :
  forall s w,
    forEach_loop callback (factory p tt) fuel s w
    = omap (fun _ => tt) (spread (factory (inspect callback p) tt) fuel s w).
Proof.
  induction fuel as [|fuel IH]; intros s w; [reflexivity|].
  cbn. parent_cases p s w; try reflexivity.
  - apply IH.
  - rewrite IH, omap_omap. reflexivity.
Qed.

Lemma some_loop_every_loop {A : Type} (f : A -> bool) (g : @Generator W A)
  fuel :
  forall s w,
    some_loop f g fuel s w
    = omap negb (every_loop (fun item => negb (f item)) g fuel s w).
Proof.
  induction fuel as [|fuel IH]; intros s w; [reflexivity|].
  cbn. destruct (resume g s w) as [[ | s' | item s' | e] w']; cbn;
    try reflexivity.
  - apply IH.
  - destruct (f item); cbn; [reflexivity | apply IH].
Qed.

Lemma some_loop_spread {A : Type} (f : A -> bool) (g : @Generator W A) fuel :
  forall s w items w',
    spread g fuel s w = Ret items w' ->
    exists w'',
      some_loop f g fuel s w = Ret (existsb f items) w''
      /\ (existsb f items = false -> w'' = w').
Proof.
  induction fuel as [|fuel IH]; intros s w items w0; [discriminate|].
  cbn. destruct (resume g s w) as [[ | s' | item s' | e] w']; intros E.
  - injection E as <- <-. now exists w'.
  - now apply IH.
  - apply omap_Ret_inv in E as (rest & E & ->). cbn.
    destruct (f item); cbn.
    + exists w'. split; [reflexivity | discriminate].
    + now apply IH.
  - discriminate.
Qed.

Lemma some_loop_short {A : Type} (f : A -> bool) (g : @Generator W A) fuel :
  forall s w w'',
    some_loop f g fuel s w = Ret true w'' ->
    exists skipped found,
      next_n g fuel (S (length skipped)) s w = Ret (skipped ++ [found]) w''
      /\ existsb f skipped = false
      /\ f found = true.
Proof.
  induction fuel as [|fuel IH]; intros s w w0; [discriminate|].
  cbn. destruct (resume g s w) as [[ | s' | item s' | e] w']; intros E;
    try discriminate.
  - now apply IH.
  - destruct (f item) eqn:F; cbn in E.
    + injection E as <-. exists [], item. cbn. now rewrite next_n_0.
    + destruct (IH _ _ _ E) as (skipped & found & N & P & Q).
      exists (item :: skipped), found. cbn. now rewrite N, F, P.
Qed.

Lemma resume_repeat {A : Type} (item : A) (repetitions i : number) w :
  resume (factory (repeat item repetitions) tt) i w
  = if num_ltb i repetitions then (Yield item (count_incr i), w)
    else (Done, w).
Proof. reflexivity. Qed.

Lemma spread_repeat {A : Type} (item : A) (r : Z) (n : nat) :
  forall i k w,
    (i + Z.of_nat n = Z.max i r)%Z ->
    spread (factory (repeat item (Fin r)) tt) (S n + k) (Fin i) w
    = @Ret W _ (List.repeat item n) w.
Proof.
  induction n as [|n IH]; intros i k w E;
    change (S ?m + k) with (S (m + k)); rewrite spread_S, resume_repeat;
    cbn [num_ltb count_incr].
  - replace (i <? r)%Z with false by (symmetry; apply Z.ltb_ge; lia).
    reflexivity.
  - replace (i <? r)%Z with true by (symmetry; apply Z.ltb_lt; lia).
    rewrite IH by lia. reflexivity.
Qed.

Lemma next_n_repeat_unbounded {A : Type} (item : A) (n : nat) :
  forall i k w,
    next_n (factory (repeat item PosInf) tt) (n + k) n (Fin i) w
    = @Ret W _ (List.repeat item n) w.
Proof.
  induction n as [|n IH]; intros i k w; [apply next_n_0|].
  change (S n + k) with (S (n + k)). rewrite next_n_S, resume_repeat.
  cbn [num_ltb count_incr]. now rewrite IH.
Qed.

Lemma next_n_range_one (a i : Z) k w :
  next_n (factory (range (Fin a) PosInf) tt) (1 + k) 1 (Fin i) w
  = @Ret W _ [Fin i] w.
Proof.
  change (1 + k) with (S k). rewrite next_n_S, resume_range.
  cbn [num_ltb]. now rewrite next_n_0.
Qed.

(** The first [n] of [n + 1] items pulled from [range(a, +Infinity)]
    are exact as long as they stay within [2^53]; the item after them
    may already be a rounded one. *)
Lemma next_n_range_unbounded (a : Z) (n : nat) :
  forall i k w,
    (- 2 ^ 53 <= i)%Z -> (i + Z.of_nat n <= 2 ^ 53 + 1)%Z ->
    exists j,
      next_n (factory (range (Fin a) PosInf) tt) (S n + k) (S n) (Fin i) w
      = @Ret W _ (ascending i n ++ [Fin j]) w.
Proof.
  induction n as [|n IH]; intros i k w Lo Hi.
  - exists i. apply next_n_range_one.
  - change (S (S n) + k) with (S (S n + k)).
    rewrite next_n_S, resume_range. cbn [num_ltb].
    destruct n as [|n].
    + cbn [num_incr]. rewrite (next_n_range_one a _ k w).
      exists (round_double (i + 1)). cbn [omap].
      now rewrite ascending_S.
    + rewrite num_incr_exact by lia.
      destruct (IH (i + 1)%Z k w) as (j & ->); [lia | lia |].
      exists j. cbn [omap]. now rewrite (ascending_S i).
Qed.

Lemma spread_range_unbounded (a : Z) fuel :
  forall i w,
    spread (factory (range (Fin a) PosInf) tt) fuel (Fin i) w
    = @OutOfFuel W _.
Proof.
  induction fuel as [|fuel IH]; intros i w; [reflexivity|].
  rewrite spread_S, resume_range. cbn [num_ltb num_incr].
  now rewrite IH.
Qed.

Lemma ascending_length (a : Z) (n : nat) : length (ascending a n) = n.
Proof. unfold ascending. now rewrite length_map, length_seq. Qed.

Lemma firstn_ascending (a : Z) (n m : nat) :
  n <= m -> firstn n (ascending a m) = ascending a n.
Proof.
  revert a m. induction n as [|n IH]; intros a [|m] L; try reflexivity;
    try lia.
  rewrite !ascending_S. cbn [firstn]. now rewrite IH by lia.
Qed.

Lemma firstn_repeat_le {A : Type} (item : A) (n m : nat) :
  n <= m -> firstn n (List.repeat item m) = List.repeat item n.
Proof.
  revert m. induction n as [|n IH]; intros [|m] L; try reflexivity; try lia.
  cbn. now rewrite IH by lia.
Qed.

Lemma spread_take_nothing {A : Type} (count : number) (p : @Iter W A) fuel :
  num_geb (Fin 0) count = true ->
  forall s w,
    spread (factory (take count p) tt) fuel (Fin 0, s) w
    = omap (fun _ => []) (next_n (factory p tt) fuel 1 s w).
Proof.
  intros G. induction fuel as [|fuel IH]; intros s w; [reflexivity|].
  rewrite next_n_S. cbn -[num_geb]. parent_cases p s w; try reflexivity.
  - apply IH.
  - rewrite G. cbn. now rewrite next_n_0.
Qed.

Lemma spread_take_everything {A : Type} (p : @Iter W A) fuel :
  forall i s w,
    spread (factory (take PosInf p) tt) fuel (Fin i, s) w
    = spread (factory p tt) fuel s w.
Proof.
  induction fuel as [|fuel IH]; intros i s w; [reflexivity|].
  cbn -[Z.add]. parent_cases p s w; try reflexivity.
  - apply IH.
  - now rewrite IH.
Qed.


Lemma spread_pure_world {A : Type} (g : @Generator W A) :
  silent g ->
  forall fuel s w items w',
    spread g fuel s w = Ret items w' -> w' = w.
Proof.
  intros Q. induction fuel as [|fuel IH]; intros s w items w0;
    [discriminate|].
  cbn. specialize (Q s w).
  destruct (resume g s w) as [[ | s' | item s' | e] w']; cbn in Q; subst;
    intros E.
  - now injection E as _ <-.
  - now apply IH in E.
  - apply omap_Ret_inv in E as (rest & E & _). now apply IH in E.
  - discriminate.
Qed.

Lemma running_last_cons {A B : Type} (f : B -> A -> B) (items : list A) :
  forall acc x d,
    last (running f acc (x :: items)) d = fold_left f (x :: items) acc.
Proof.
  induction items as [|y items IH]; intros acc x d; [reflexivity|].
  change (running f acc (x :: y :: items))
    with (f acc x :: running f (f acc x) (y :: items)).
  change (fold_left f (x :: y :: items) acc)
    with (fold_left f (y :: items) (f acc x)).
  rewrite <- (IH (f acc x) y d). reflexivity.
Qed.

Lemma running_last {A B : Type} (f : B -> A -> B) (items : list A) acc :
  last (running f acc items) acc = fold_left f items acc.
Proof.
  destruct items as [|x items]; [reflexivity | apply running_last_cons].
Qed.

Lemma reduce_loop_map {A B C : Type} (f : C -> B -> C) (g : A -> B)
  (p : @Iter W A) fuel :
  forall acc s w,
    reduce_loop f (factory (map g p) tt) fuel acc s w
    = reduce_loop (fun acc item => f acc (g item)) (factory p tt) fuel acc s w.
Proof.
  induction fuel as [|fuel IH]; intros acc s w; [reflexivity|].
  cbn. parent_cases p s w; try reflexivity; apply IH.
Qed.

Lemma spread_fromIterable {A : Type} (g : @Generator W A) fuel :
  forall s w,
    spread (factory (fromIterable (fun _ => g)) tt) fuel s w
    = spread g fuel s w.
Proof.
  induction fuel as [|fuel IH]; intros s w; [reflexivity|].
  cbn. destruct (resume g s w) as [[ | s' | item s' | e] w']; cbn;
    try reflexivity.
  - apply IH.
  - now rewrite IH.
Qed.

Lemma spread_repeat_unbounded {A : Type} (item : A) fuel :
  forall i w,
    spread (factory (repeat item PosInf) tt) fuel (Fin i) w = @OutOfFuel W _.
Proof.
  induction fuel as [|fuel IH]; intros i w; [reflexivity|].
  rewrite spread_S, resume_repeat. cbn [num_ltb count_incr]. now rewrite IH.
Qed.

Lemma filter_filter {A : Type} (f g : A -> bool) (items : list A) :
  List.filter g (List.filter f items)
  = List.filter (fun item => f item && g item) items.
Proof.
  induction items as [|x items IH]; [reflexivity|].
  cbn. destruct (f x); cbn; [destruct (g x)|]; now rewrite IH.
Qed.

Lemma collect_map {A B : Type} (f : A -> B) (p : @Iter W A) fuel w :
  collect fuel (map f p) w = omap (List.map f) (collect fuel p w).
Proof. apply spread_map. Qed.

Lemma collect_filter {A : Type} (f : A -> bool) (p : @Iter W A) fuel w :
  collect fuel (filter f p) w = omap (List.filter f) (collect fuel p w).
Proof. apply spread_filter. Qed.

Lemma collect_enumerate {A : Type} (p : @Iter W A) fuel w :
  collect fuel (enumerate p) w = omap (indexed_from 0) (collect fuel p w).
Proof. apply (spread_enumerate p fuel 0%Z). Qed.

(** X1.  [map(f)] applies [f] to every item of its parent, in order and
    one for one, and hands on the parent's exception or divergence
    untouched; two [map] stages are one stage of the composed function. *)
Theorem map_collect {A B C : Type} (f : A -> B) (g : B -> C)
  (p : @Iter W A) (fuel : nat) (w : W) :
  collect fuel (map f p) w = omap (List.map f) (collect fuel p w)
  /\ collect fuel (map g (map f p)) w
     = collect fuel (map (fun item => g (f item)) p) w.
Proof.
  split; [apply collect_map|].
  rewrite !collect_map, omap_omap.
  apply omap_ext. intros items. apply map_map.
Qed.

(** X2.  [filter(pred)] keeps exactly the items satisfying [pred], in
    order, and hands on the parent's exception or divergence; two
    [filter] stages keep the items satisfying both predicates. *)
Theorem filter_collect {A : Type} (f g : A -> bool) (p : @Iter W A)
  (fuel : nat) (w : W) :
  collect fuel (filter f p) w = omap (List.filter f) (collect fuel p w)
  /\ collect fuel (filter g (filter f p)) w
     = collect fuel (filter (fun item => f item && g item) p) w.
Proof.
  split; [apply collect_filter|].
  rewrite !collect_filter, omap_omap.
  apply omap_ext. intros items. apply filter_filter.
Qed.

(** X3.  [take(n)] downstream of [filter(pred)] counts only the items
    that passed the filter: over a finite parent it collects to the
    first [n] items satisfying [pred]. *)
Theorem take_after_filter {A : Type} (f : A -> bool) (p : @Iter W A)
  (n fuel : nat) (w : W) (items : list A) (w' : W) :
  collect fuel p w = Ret items w' ->
  exists w'',
    collect fuel (take (Fin (Z.of_nat n)) (filter f p)) w
    = Ret (firstn n (List.filter f items)) w''.
Proof.
  intros E.
  assert (F : collect fuel (filter f p) w = Ret (List.filter f items) w')
    by now rewrite collect_filter, E.
  destruct (collect_take_finite (filter f p) n fuel w _ _ F) as (w'' & T & _).
  now exists w''.
Qed.

(** X4.  [enumerate()] pairs every item with its position in the
    traversal, counted from 0: the [k]-th output is [(k, item k)];
    dropping the indices gives the parent back, and downstream of a
    [filter] the positions are those among the items that passed. *)
Theorem enumerate_collect {A : Type} (f : A -> bool) (p : @Iter W A)
  (fuel : nat) (w : W) :
  collect fuel (enumerate p) w = omap (indexed_from 0) (collect fuel p w)
  /\ (forall (items : list A) k item,
        nth_error items k = Some item ->
        nth_error (indexed_from 0 items) k = Some (Fin (Z.of_nat k), item))
  /\ collect fuel (map snd (enumerate p)) w = collect fuel p w
  /\ collect fuel (enumerate (filter f p)) w
     = omap (fun items => indexed_from 0 (List.filter f items))
         (collect fuel p w).
Proof.
  split; [apply collect_enumerate|]. split; [|split].
  - intros items k item N. now apply (indexed_from_nth items 0%Z).
  - rewrite collect_map, collect_enumerate, omap_omap.
    rewrite (omap_ext _ (fun x => x)) by (intros x; apply indexed_from_snd).
    now destruct (collect fuel p w).
  - now rewrite collect_enumerate, collect_filter, omap_omap.
Qed.

Lemma collect_inspect {A : Type} (f : A -> W -> W) (p : @Iter W A)
  fuel w items w' :
  reinvocable (factory p tt) -> silent (factory p tt) ->
  collect fuel p w = Ret items w' ->
  forall w2, collect fuel (inspect f p) w2 = Ret items (inspected f items w2).
Proof.
  intros R Q E w2.
  exact (spread_inspect f p R Q fuel _ w items w' E w2).
Qed.


(** X6.  [forEach(fn)] does to the world what collecting through
    [inspect(fn)] does, and returns nothing; over a source that neither
    reads nor writes the world it calls [fn] once per item, in order. *)
Theorem forEach_spec {A : Type} (callback : A -> W -> W) (p : @Iter W A)
  (fuel : nat) (w : W) :
  forEach fuel callback p w
  = omap (fun _ => tt) (collect fuel (inspect callback p) w)
  /\ (forall items w',
        reinvocable (factory p tt) -> silent (factory p tt) ->
        collect fuel p w = Ret items w' ->
        forEach fuel callback p w = Ret tt (inspected callback items w)).
Proof.
  assert (F : forEach fuel callback p w
              = omap (fun _ => tt) (collect fuel (inspect callback p) w))
    by apply forEach_loop_inspect.
  split; [exact F|]. intros items w' R Q E.
  now rewrite F, (collect_inspect callback p fuel w items w' R Q E).
Qed.

(** X7.  [some(pred)] over a finite sequence returns [true] exactly when
    an item satisfies [pred] (so [false] on the empty sequence, after a
    full traversal); when it returns [true] it has pulled the items up
    to the first satisfying one and nothing after it. *)
Theorem some_spec {A : Type} (f : A -> bool) (p : @Iter W A) (fuel : nat)
  (w : W) (items : list A) (w' : W) :
  collect fuel p w = Ret items w' ->
  exists b w'',
    some fuel f p w = Ret b w''
    /\ (b = true <-> exists item, In item items /\ f item = true)
    /\ (items = [] -> b = false)
    /\ (b = false -> w'' = w')
    /\ (b = true ->
        exists skipped found rest,
          items = skipped ++ found :: rest
          /\ existsb f skipped = false
          /\ f found = true
          /\ pulls fuel (S (length skipped)) p w
             = Ret (skipped ++ [found]) w'').
Proof.
  intros E. unfold collect, some, pulls in *. cbv zeta in *.
  destruct (some_loop_spread f _ fuel _ _ _ _ E) as (w'' & V & T).
  exists (existsb f items), w''. split; [exact V|].
  split; [apply existsb_exists|]. split; [now intros ->|].
  split; [exact T|].
  intros F. rewrite F in V.
  destruct (some_loop_short f _ fuel _ _ _ V)
    as (skipped & found & N & P & Q).
  destruct (next_n_spread _ fuel (S (length skipped)) _ _ _ _ E)
    as (w3 & N').
  assert (Hitems : skipped ++ [found] = firstn (S (length skipped)) items)
    by congruence.
  exists skipped, found, (skipn (S (length skipped)) items).
  split; [|now repeat split].
  rewrite <- (firstn_skipn (S (length skipped)) items) at 1.
  rewrite <- Hitems, <- app_assoc. reflexivity.
Qed.

(** X8.  [some(pred)] is the negation of [every] of the negated
    predicate, on every sequence, finite or not, with the same pulls and
    the same exception. *)
Theorem some_every_dual {A : Type} (f : A -> bool) (p : @Iter W A)
  (fuel : nat) (w : W) :
  some fuel f p w
  = omap negb (every fuel (fun item => negb (f item)) p w).
Proof. apply some_loop_every_loop. Qed.

(** X9.  [repeat(item, r)] collects to [r] copies of [item], none when
    [r] is zero or negative; with [r = +Infinity] collecting never
    returns, while [take(n)] of it returns [n] copies. *)
Theorem repeat_collect {A : Type} (item : A) (r : Z) (k : nat) (w : W) :
  collect (S (Z.to_nat r) + k) (repeat item (Fin r)) w
  = Ret (List.repeat item (Z.to_nat r)) w
  /\ (forall fuel, collect fuel (repeat item PosInf) w = OutOfFuel)
  /\ (forall n,
        collect (S n + k) (take (Fin (Z.of_nat n)) (repeat item PosInf)) w
        = Ret (List.repeat item n) w).
Proof.
  split; [|split].
  - apply (spread_repeat item r (Z.to_nat r) 0%Z). lia.
  - intros fuel. apply (spread_repeat_unbounded item fuel 0%Z).
  - intros n. rewrite collect_take. unfold pulls. cbv zeta.
    change (cursor (factory (repeat item PosInf) tt)) with (Fin 0).
    rewrite (next_n_repeat_unbounded item (S n) 0%Z k w). cbn [omap].
    now rewrite firstn_repeat_le by lia.
Qed.

(** X10.  Collecting [range(a, +Infinity)] never returns, whatever the
    fuel; bounded by [take(n)] it returns [a, a+1, ..., a+n-1] after
    [n + 1] iterations as long as these stay within [2^53] in magnitude.
    Past [2^53] the increment no longer moves: [take(3)] from [2^53 - 1]
    returns [2^53 - 1, 2^53, 2^53]. *)
Theorem range_unbounded (a : Z) (w : W) :
  (forall fuel, collect fuel (range (Fin a) PosInf) w = OutOfFuel)
  /\ (forall n k,
        (- 2 ^ 53 <= a)%Z -> (a + Z.of_nat n <= 2 ^ 53 + 1)%Z ->
        collect (S n + k) (take (Fin (Z.of_nat n)) (range (Fin a) PosInf)) w
        = Ret (ascending a n) w)
  /\ (forall k,
        collect (4 + k)
          (take (Fin 3) (range (Fin 9007199254740991) PosInf)) w
        = Ret [Fin 9007199254740991; Fin 9007199254740992;
               Fin 9007199254740992] w).
Proof.
  split; [|split].
  - intros fuel. apply spread_range_unbounded.
  - intros n k Lo Hi. rewrite collect_take. unfold pulls. cbv zeta.
    change (cursor (factory (range (Fin a) PosInf) tt)) with (Fin a).
    destruct (next_n_range_unbounded a n a k w Lo Hi) as (j & ->).
    cbn [omap]. rewrite firstn_app, ascending_length, Nat.sub_diag.
    cbn [firstn]. rewrite app_nil_r.
    rewrite firstn_all2 by (rewrite ascending_length; lia). reflexivity.
  - intros k. vm_compute. reflexivity.
Qed.

(** X11.  [take(count)] with [count] zero, negative or [-Infinity]
    yields nothing, after pulling one item from its parent;
    [take(+Infinity)] is its parent. *)
Theorem take_edge_counts {A : Type} (p : @Iter W A) (fuel : nat) (w : W) :
  (forall z, (z <= 0)%Z ->
     collect fuel (take (Fin z) p) w
     = omap (fun _ => []) (pulls fuel 1 p w))
  /\ collect fuel (take NegInf p) w = omap (fun _ => []) (pulls fuel 1 p w)
  /\ collect fuel (take PosInf p) w = collect fuel p w.
Proof.
  split; [|split].
  - intros z L. apply spread_take_nothing. unfold num_geb. cbn.
    now replace (0 <? z)%Z with false by (symmetry; apply Z.ltb_ge; lia).
  - now apply spread_take_nothing.
  - apply (spread_take_everything p fuel 0%Z).
Qed.

(** X12.  Two [take] stages keep the smaller bound: over a finite parent
    [take(n).take(m)] collects to the first [min m n] items. *)
Theorem take_take {A : Type} (p : @Iter W A) (n m fuel : nat) (w : W)
  (items : list A) (w' : W) :
  collect fuel p w = Ret items w' ->
  exists w'',
    collect fuel (take (Fin (Z.of_nat m)) (take (Fin (Z.of_nat n)) p)) w
    = Ret (firstn (Nat.min m n) items) w''.
Proof.
  intros E.
  destruct (collect_take_finite p n fuel w _ _ E) as (w1 & T & _).
  destruct (collect_take_finite _ m fuel w _ _ T) as (w2 & T' & _).
  exists w2. now rewrite T', firstn_firstn.
Qed.

(** X13.  An exception raised by the parent while it produces any of
    its first [n + 1] items comes out of [take(n)]: also one raised for
    the item after the [n]-th, which [take] would have dropped. *)
Theorem take_propagates_error {A : Type} (p : @Iter W A) (n fuel : nat)
  (w : W) (e : Error) (w' : W) :
  pulls fuel (S n) p w = Raise e w' ->
  collect fuel (take (Fin (Z.of_nat n)) p) w = Raise e w'.
Proof. intros E. now rewrite collect_take, E. Qed.

(** X14.  Over a finite sequence [reduce(f, i)] is the last value that
    [scan(f, i)] yields, and [i] when [scan] yields nothing. *)
Theorem scan_last_is_reduce {A B : Type} (f : B -> A -> B) (i : B)
  (p : @Iter W A) (fuel : nat) (w : W) (items : list A) (w' : W) :
  collect fuel p w = Ret items w' ->
  exists outs,
    collect fuel (scan f i p) w = Ret outs w'
    /\ length outs = length items
    /\ reduce fuel f i p w = Ret (last outs i) w'.
Proof.
  intros E. exists (running f i items).
  split; [|split].
  - unfold collect in *. cbv zeta in *.
    change (cursor (factory (scan f i p) tt))
      with (i, cursor (factory p tt)).
    now rewrite spread_scan, E.
  - apply running_length.
  - rewrite running_last. now apply reduce_loop_spread.
Qed.

(** X15.  [fromArray(source).collect()] gives back [source]: every
    element, in index order, after [length + 1] iterations and without
    touching the world. *)
Theorem fromArray_roundtrip {A : Type} (source : list A) (k : nat) (w : W) :
  collect (S (length source) + k) (fromArray source) w = Ret source w
  /\ (forall f : A -> W -> W,
        collect (S (length source) + k) (inspect f (fromArray source)) w
        = Ret source (inspected f source w)).
Proof.
  split; [apply collect_fromArray|].
  intros f. apply (collect_inspect f (fromArray source) _ w source w).
  - apply reinvocable_fromArray.
  - apply reinvocable_fromArray.
  - apply collect_fromArray.
Qed.

(** X16.  An [Iter] is iterable through [[Symbol.iterator]]: handed to
    [fromIterable] or [fromGenerator] it gives an [Iter] that behaves as
    the original one. *)
Theorem iterator_roundtrip {A : Type} (context : @Iter W A) (fuel : nat)
  (w : W) :
  collect fuel (fromIterable (iterator context)) w = collect fuel context w
  /\ collect fuel (fromGenerator (iterator context)) w
     = collect fuel context w.
Proof.
  split; [|reflexivity]. apply (spread_fromIterable (factory context tt)).
Qed.

(** X17.  Reducing a mapped sequence is reducing the parent with the
    mapping folded into the reducer. *)
Theorem reduce_map {A B C : Type} (f : C -> B -> C) (g : A -> B) (i : C)
  (p : @Iter W A) (fuel : nat) (w : W) :
  reduce fuel f i (map g p) w
  = reduce fuel (fun acc item => f acc (g item)) i p w.
Proof. apply reduce_loop_map. Qed.

(** X18.  Each branch of [partition] traverses the parent anew: when
    both branches are collected, an [inspect] stage upstream of
    [partition] has run its inspector twice on every item. *)
Theorem partition_traverses_twice {A : Type} (g : A -> bool)
  (f : A -> W -> W) (p : @Iter W A) (fuel : nat) (w : W)
  (items : list A) (w' : W) :
  reinvocable (factory p tt) ->
  silent (factory p tt) ->
  collect fuel p w = Ret items w' ->
  collect fuel (fst (partition g (inspect f p))) w
  = Ret (List.filter g items) (inspected f items w)
  /\ collect fuel (snd (partition g (inspect f p))) (inspected f items w)
     = Ret (List.filter (fun item => negb (g item)) items)
         (inspected f items (inspected f items w)).
Proof.
  intros R Q E.
  pose proof (collect_inspect f p fuel w items w' R Q E) as I.
  unfold collect in *. cbv zeta in *.
  change (cursor (factory (inspect f p) tt)) with (cursor (factory p tt)) in I.
  split.
  - change (cursor _) with (cursor (factory p tt)).
    now rewrite spread_truthy, I.
  - change (cursor _) with (cursor (factory p tt)).
    now rewrite spread_falsy, I.
Qed.

End Composition.

(** ** Further instances *)

(** X3, at a concrete input: the first two even numbers of
    [range(0, 4)]. *)
Lemma take_after_filter_witness :
  collect 5 (range (Fin 0) (Fin 4)) tt
  = Ret [Fin 0; Fin 1; Fin 2; Fin 3] tt
  /\ exists w'',
       collect 5
         (take (Fin 2)
            (filter (fun x => match x with Fin z => Z.even z | _ => false end)
               (range (Fin 0) (Fin 4)))) tt
       = Ret [Fin 0; Fin 2] w''.
Proof.
  split; [reflexivity|].
  exact (take_after_filter
           (fun x => match x with Fin z => Z.even z | _ => false end)
           (range (Fin 0) (Fin 4)) 2 5 tt
           [Fin 0; Fin 1; Fin 2; Fin 3] tt eq_refl).
Defined.


(** X6, at a concrete input: [forEach] with a recording callback. *)
Lemma forEach_spec_witness :
  collect 4 (fromArray [1; 2; 3]%Z) ([] : list Z) = Ret [1; 2; 3]%Z []
  /\ forEach 4 spy (fromArray [1; 2; 3]%Z) [] = Ret tt [1; 2; 3]%Z.
Proof.
  split; [reflexivity|].
  exact (proj2 (forEach_spec spy (fromArray [1; 2; 3]%Z) 4 ([] : list Z))
           [1; 2; 3]%Z []
           (proj1 (reinvocable_fromArray _))
           (proj2 (reinvocable_fromArray _)) eq_refl).
Defined.

(** X7, at a concrete input: the spy upstream of [some(x > 1)] over
    [1,2,3] sees 1 and 2, never 3. *)
Lemma some_spec_witness :
  collect 4 (inspect spy (fromArray [1; 2; 3]%Z)) []
  = Ret [1; 2; 3]%Z [1; 2; 3]%Z
  /\ some 4 (fun x => 1 <? x)%Z (inspect spy (fromArray [1; 2; 3]%Z)) []
     = Ret true [1; 2]%Z.
Proof.
  split; [reflexivity|].
  destruct (some_spec (fun x => 1 <? x)%Z (inspect spy (fromArray [1; 2; 3]%Z))
              4 [] [1; 2; 3]%Z [1; 2; 3]%Z eq_refl) as (b & w'' & E & _).
  cbv in E. injection E as <- <-. reflexivity.
Defined.

(** X12, at a concrete input: [take(3).take(2)] of [1,2,3,4]. *)
Lemma take_take_witness :
  collect 5 (fromArray [1; 2; 3; 4]%Z) tt = Ret [1; 2; 3; 4]%Z tt
  /\ exists w'',
       collect 5 (take (Fin 2) (take (Fin 3) (fromArray [1; 2; 3; 4]%Z))) tt
       = Ret [1; 2]%Z w''.
Proof.
  split; [reflexivity|].
  exact (take_take (fromArray [1; 2; 3; 4]%Z) 3 2 5 tt [1; 2; 3; 4]%Z tt
           eq_refl).
Defined.

(** X13, at a concrete input: one pair is asked of [1, 2, f]; the second
    pair, which cannot be cloned, is pulled all the same and its
    exception comes out. *)
Lemma take_propagates_error_witness :
  pulls 4 2
    (pairwise (fromArray [VNumber (Fin 1); VNumber (Fin 2); VFunction 0])) tt
  = Raise DataCloneError tt
  /\ collect 4
       (take (Fin 1)
          (pairwise
             (fromArray [VNumber (Fin 1); VNumber (Fin 2); VFunction 0]))) tt
     = Raise DataCloneError tt.
Proof.
  split; [reflexivity|].
  exact (take_propagates_error
           (pairwise
              (fromArray [VNumber (Fin 1); VNumber (Fin 2); VFunction 0]))
           1 4 tt DataCloneError tt eq_refl).
Defined.

(** X14, at a concrete input and a function that is not associative. *)
Lemma scan_last_is_reduce_witness :
  collect 4 (fromArray [1; 2; 3]%Z) tt = Ret [1; 2; 3]%Z tt
  /\ exists outs,
       collect 4 (scan Z.sub 10%Z (fromArray [1; 2; 3]%Z)) tt = Ret outs tt
       /\ length outs = 3
       /\ reduce 4 Z.sub 10%Z (fromArray [1; 2; 3]%Z) tt
          = Ret (last outs 10%Z) tt.
Proof.
  split; [reflexivity|].
  exact (scan_last_is_reduce Z.sub 10%Z (fromArray [1; 2; 3]%Z) 4 tt
           [1; 2; 3]%Z tt eq_refl).
Defined.

(** X18, at a concrete input: four items, eight calls of the counting
    inspector once both branches are collected. *)
Lemma partition_traverses_twice_witness :
  reinvocable (W:=nat) (factory (fromArray [1; 2; 3; 4]%Z) tt)
  /\ silent (W:=nat) (factory (fromArray [1; 2; 3; 4]%Z) tt)
  /\ collect 5 (fromArray [1; 2; 3; 4]%Z) 0 = Ret [1; 2; 3; 4]%Z 0
  /\ collect 5
       (fst (partition Z.even
               (inspect (fun _ calls => S calls)
                  (fromArray [1; 2; 3; 4]%Z)))) 0
     = Ret [2; 4]%Z 4
  /\ collect 5
       (snd (partition Z.even
               (inspect (fun _ calls => S calls)
                  (fromArray [1; 2; 3; 4]%Z)))) 4
     = Ret [1; 3]%Z 8.
Proof.
  split; [apply reinvocable_fromArray|].
  split; [apply reinvocable_fromArray|]. split; [reflexivity|].
  exact (partition_traverses_twice Z.even (fun _ calls => S calls)
           (fromArray [1; 2; 3; 4]%Z) 5 0 [1; 2; 3; 4]%Z 0
           (proj1 (reinvocable_fromArray _))
           (proj2 (reinvocable_fromArray _)) eq_refl).
Defined.

(** X10, at a concrete input: the last start from which two items come
    out exact. *)
Lemma range_unbounded_witness :
  (- 2 ^ 53 <= 9007199254740991)%Z
  /\ (9007199254740991 + Z.of_nat 2 <= 2 ^ 53 + 1)%Z
  /\ collect 3 (take (Fin 2) (range (Fin 9007199254740991) PosInf)) tt
     = Ret [Fin 9007199254740991; Fin 9007199254740992] tt.
Proof.
  split; [vm_compute; discriminate|]. split; [vm_compute; discriminate|].
  exact (proj1 (proj2 (range_unbounded 9007199254740991 tt)) 2 0
           ltac:(vm_compute; discriminate) ltac:(vm_compute; discriminate)).
Defined.

End Iter.
